(** * The sandboxed text-editing engine of [engine/server.ts]

    A shallow embedding of the tool handlers of the engine (path guard,
    range parser, glob compiler, line-replace, whole-file write, rename,
    delete and view) together with the JavaScript and Node built-ins they
    call, followed by the properties of the handlers.

    Conventions of the embedding:
    - a JavaScript string is the list of its UTF-16 code units ([N]);
    - a JavaScript number that the handlers receive is either [NaN] or an
      integer ([Z]); fractional and infinite numbers are not represented,
      and an integer stands for its double, exact up to 2^53 in magnitude;
    - [node:path] is modelled for POSIX ([path.sep] is the slash);
    - the file system is a store from path strings to nodes, threaded
      explicitly through every handler; a file's content is the text that
      [fs.readFileSync(p, "utf-8")] returns for it, so that a write stores
      a surrogate without its partner as U+FFFD; two path strings name two
      nodes (no links, no trailing-separator aliases), and no file is
      created or moved to a path that ends in a separator;
    - a thrown [Error] is the [Throw] result of a small state-and-error
      monad, and [JSON.stringify] of a reply object is the reply itself. *)

From Stdlib Require Import Ascii String.
From Stdlib Require Import NArith ZArith List Bool Lia.
Import ListNotations.

Set Implicit Arguments.

(* ================================================================== *)
(** ** JavaScript strings, arrays and numbers *)

Module JS.

Definition char := N.
Definition jsstring := list char.

(** A literal of the source, as code units. *)
Definition str (s : string) : jsstring :=
  map N_of_ascii (list_ascii_of_string s).

Definition LF : char := 10%N.
Definition CR : char := 13%N.
Definition SLASH : char := 47%N.
Definition BACKSLASH : char := 92%N.
Definition DOT : char := 46%N.
Definition STAR : char := 42%N.
Definition QUESTION : char := 63%N.

(** [a === b] on strings. *)
Fixpoint str_eqb (a b : jsstring) : bool :=
  match a, b with
  | [], [] => true
  | x :: a', y :: b' => N.eqb x y && str_eqb a' b'
  | _, _ => false
  end.

(** [s.startsWith(p)]. *)
Fixpoint startsWith (s p : jsstring) {struct p} : bool :=
  match p, s with
  | [], _ => true
  | y :: p', x :: s' => N.eqb x y && startsWith s' p'
  | _ :: _, [] => false
  end.

(** [s.endsWith(p)]: the last [p.length] code units of [s] are [p]. *)
Definition endsWith (s p : jsstring) : bool :=
  (length p <=? length s)%nat && str_eqb (skipn (length s - length p) s) p.

(** [s.indexOf(t)], [None] standing for [-1]. *)
Fixpoint indexOf (s t : jsstring) : option nat :=
  if startsWith s t then Some 0%nat
  else match s with
       | [] => None
       | _ :: s' => option_map S (indexOf s' t)
       end.

(** [s.includes(t)]. *)
Definition includes (s t : jsstring) : bool :=
  match indexOf s t with Some _ => true | None => false end.

(** [parts.includes(x)] on an array of strings. *)
Definition array_includes (parts : list jsstring) (x : jsstring) : bool :=
  existsb (fun y => str_eqb y x) parts.

(** Relative index of [Array.prototype.slice] and [String.prototype.slice]. *)
Definition rel_index (len k : Z) : Z :=
  if (k <? 0)%Z then Z.max (len + k) 0 else Z.min k len.

(** [l.slice(a, b)]. *)
Definition slice {A} (l : list A) (a b : Z) : list A :=
  let len := Z.of_nat (length l) in
  let from := rel_index len a in
  let upto := rel_index len b in
  firstn (Z.to_nat (upto - from)) (skipn (Z.to_nat from) l).

(** [l.slice(a)]. *)
Definition slice_from {A} (l : list A) (a : Z) : list A :=
  skipn (Z.to_nat (rel_index (Z.of_nat (length l)) a)) l.

(** [parts.join(sep)]. *)
Fixpoint join (sep : jsstring) (parts : list jsstring) : jsstring :=
  match parts with
  | [] => []
  | [p] => p
  | p :: rest => p ++ sep ++ join sep rest
  end.

(** [s.split(c)] for a separator of one code unit. *)
Fixpoint split_char (c : char) (s : jsstring) : list jsstring :=
  match s with
  | [] => [[]]
  | x :: s' =>
      if N.eqb x c then [] :: split_char c s'
      else match split_char c s' with
           | l :: ls => (x :: l) :: ls
           | [] => [[x]]
           end
  end.

(** [s.split(sep)] for a literal separator of any positive length (also the
    split on a regular expression that denotes one literal).  [skip] counts
    the code units of a separator still to be consumed and [cur] holds the
    current piece, reversed. *)
Fixpoint split_lit_aux (sep s : jsstring) (skip : nat) (cur : jsstring)
  : list jsstring :=
  match s with
  | [] => [rev cur]
  | x :: s' =>
      match skip with
      | S k => split_lit_aux sep s' k cur
      | O =>
          if startsWith s sep
          then rev cur :: split_lit_aux sep s' (length sep - 1) []
          else split_lit_aux sep s' 0 (x :: cur)
      end
  end.

Definition split_lit (sep s : jsstring) : list jsstring :=
  split_lit_aux sep s 0 [].

(** [s.replace(/pat/g, rep)] for a pattern that denotes the literal [pat]. *)
Fixpoint replaceAll_aux (pat rep s : jsstring) (skip : nat) : jsstring :=
  match s with
  | [] => []
  | x :: s' =>
      match skip with
      | S k => replaceAll_aux pat rep s' k
      | O =>
          if startsWith s pat
          then rep ++ replaceAll_aux pat rep s' (length pat - 1)
          else x :: replaceAll_aux pat rep s' 0
      end
  end.

Definition replaceAll (pat rep s : jsstring) : jsstring :=
  replaceAll_aux pat rep s 0.

(** [s.replace(/\r\n/g, "\n")]. *)
Fixpoint normalize_crlf (s : jsstring) : jsstring :=
  match s with
  | [] => []
  | x :: s' =>
      if N.eqb x CR
      then match s' with
           | y :: s'' => if N.eqb y LF then LF :: normalize_crlf s''
                         else x :: normalize_crlf s'
           | [] => [x]
           end
      else x :: normalize_crlf s'
  end.

(** [x] put in front of the first piece of [pieces]. *)
Definition push_char (x : char) (pieces : list jsstring) : list jsstring :=
  match pieces with
  | l :: ls => (x :: l) :: ls
  | [] => [[x]]
  end.

(** [s.split(/\r?\n/)]: a line ends at LF, or at CR immediately followed by
    LF. *)
Fixpoint split_lines (s : jsstring) : list jsstring :=
  match s with
  | [] => [[]]
  | x :: s' =>
      if N.eqb x LF then [] :: split_lines s'
      else if N.eqb x CR
      then match s' with
           | y :: s'' =>
               if N.eqb y LF then [] :: split_lines s''
               else push_char x (split_lines s')
           | [] => push_char x (split_lines s')
           end
      else push_char x (split_lines s')
  end.

(** White space and line terminators, as [trim] and [parseInt] strip them. *)
Definition is_space (c : char) : bool :=
  existsb (N.eqb c)
    [9; 10; 11; 12; 13; 32; 160; 5760; 8192; 8193; 8194; 8195; 8196; 8197;
     8198; 8199; 8200; 8201; 8202; 8232; 8233; 8239; 8287; 12288; 65279]%N.

Fixpoint trimStart (s : jsstring) : jsstring :=
  match s with
  | x :: s' => if is_space x then trimStart s' else s
  | [] => []
  end.

(** [s.trim()]. *)
Definition trim (s : jsstring) : jsstring :=
  rev (trimStart (rev (trimStart s))).

(** One code unit of [s.toLowerCase()].  Only the code units whose lower
    case is an ASCII letter are mapped (A-Z and the Kelvin sign); the source
    compares the result with an ASCII literal only. *)
Definition lower_unit (c : char) : char :=
  if ((65 <=? c) && (c <=? 90))%N then (c + 32)%N
  else if (c =? 8490)%N then 107%N
  else c.

Definition toLowerCase (s : jsstring) : jsstring := map lower_unit s.

(** [Buffer.byteLength(s, "utf-8")]: one to three bytes for a code unit of
    the basic plane (three for a lone surrogate, encoded as U+FFFD), four for
    a surrogate pair. *)
Fixpoint byteLength (s : jsstring) : N :=
  match s with
  | [] => 0
  | x :: s' =>
      if (x <? 128)%N then 1 + byteLength s'
      else if (x <? 2048)%N then 2 + byteLength s'
      else if ((55296 <=? x) && (x <? 56320))%N
      then match s' with
           | y :: s'' =>
               if ((56320 <=? y) && (y <? 57344))%N then 4 + byteLength s''
               else 3 + byteLength s'
           | [] => 3
           end
      else 3 + byteLength s'
  end%N.

(** Numbers: [NaN] or an integer.  An integer stands for the double of that
    value: the model is exact where doubles are, for integers up to 2^53 in
    magnitude; what the code does with larger numbers (rounding, infinity)
    is outside it. *)
Inductive jsnum := NaN | Num (z : Z).

(** [Math.max(a, b)]. *)
Definition Math_max (a b : jsnum) : jsnum :=
  match a, b with
  | Num x, Num y => Num (Z.max x y)
  | _, _ => NaN
  end.

Definition is_digit (c : char) : bool := ((48 <=? c) && (c <=? 57))%N.

Fixpoint digits_value (s : jsstring) (acc : option Z) : option Z :=
  match s with
  | x :: s' =>
      if is_digit x
      then digits_value s'
             (Some (10 * match acc with Some a => a | None => 0 end
                    + Z.of_N (x - 48)))%Z
      else acc
  | [] => acc
  end.

(** [parseInt(s, 10)] of a string; [parseInt(undefined, 10)] is [NaN].  The
    value is the one written, which is the double that the code returns as
    long as it does not exceed 2^53. *)
Definition parseInt (s : option jsstring) : jsnum :=
  match s with
  | None => NaN
  | Some s =>
      let t := trimStart s in
      let '(neg, body) :=
        match t with
        | x :: t' => if (x =? 45)%N then (true, t')
                     else if (x =? 43)%N then (false, t') else (false, t)
        | [] => (false, t)
        end in
      match digits_value body None with
      | Some v => Num (if neg then - v else v)
      | None => NaN
      end
  end.

End JS.
Export JS.

(* ================================================================== *)
(** ** [node:path], POSIX flavour *)

Module Path.

Definition sep : jsstring := [SLASH].

Definition isAbsolute (p : jsstring) : bool :=
  match p with x :: _ => N.eqb x SLASH | [] => false end.

Definition ends_with_sep (p : jsstring) : bool :=
  match rev p with x :: _ => N.eqb x SLASH | [] => false end.

(** One segment of [normalizeString]: empty and [.] segments are dropped, a
    [..] segment removes the segment before it, or is kept when nothing is
    left to remove and the path is relative.  The stack is kept reversed. *)
Definition norm_step (allowAboveRoot : bool) (stack : list jsstring)
    (seg : jsstring) : list jsstring :=
  if str_eqb seg [] || str_eqb seg (str ".") then stack
  else if str_eqb seg (str "..") then
    match stack with
    | top :: rest =>
        if str_eqb top (str "..")
        then (if allowAboveRoot then seg :: stack else stack)
        else rest
    | [] => if allowAboveRoot then [seg] else []
    end
  else seg :: stack.

Definition normalizeSegments (allowAboveRoot : bool) (segs : list jsstring)
  : list jsstring :=
  rev (fold_left (norm_step allowAboveRoot) segs []).

Definition normalizeString (p : jsstring) (allowAboveRoot : bool) : jsstring :=
  join sep (normalizeSegments allowAboveRoot (split_char SLASH p)).

(** [path.normalize(p)]. *)
Definition normalize (p : jsstring) : jsstring :=
  match p with
  | [] => str "."
  | _ =>
      let isAbs := isAbsolute p in
      let trailing := ends_with_sep p in
      let q := normalizeString p (negb isAbs) in
      match q with
      | [] => if isAbs then sep else if trailing then str "./" else str "."
      | _ =>
          let q := if trailing then q ++ sep else q in
          if isAbs then sep ++ q else q
      end
  end.

(** [path.join(...args)]: the non-empty arguments joined by the separator,
    then normalized. *)
Definition join_paths (args : list jsstring) : jsstring :=
  match filter (fun a => negb (str_eqb a [])) args with
  | [] => str "."
  | parts => normalize (join sep parts)
  end.

(** [path.resolve(p)] with one argument, [cwd] being [process.cwd()]. *)
Definition resolve (cwd p : jsstring) : jsstring :=
  let full := if isAbsolute p then p else cwd ++ sep ++ p in
  let isAbs := isAbsolute full in
  let r := normalizeString full (negb isAbs) in
  if isAbs then sep ++ r
  else match r with [] => str "." | _ => r end.

(** The segments of a path, empty ones dropped. *)
Definition segments (p : jsstring) : list jsstring :=
  filter (fun s => negb (str_eqb s [])) (split_char SLASH p).

Fixpoint strip_common (a b : list jsstring) : list jsstring * list jsstring :=
  match a, b with
  | x :: a', y :: b' => if str_eqb x y then strip_common a' b' else (a, b)
  | _, _ => (a, b)
  end.

(** [path.relative(from, to)]: both are resolved, their common leading
    segments dropped, one [..] per segment left of [from], then what is left
    of [to]. *)
Definition relative (cwd from to : jsstring) : jsstring :=
  let '(up, down) :=
    strip_common (segments (resolve cwd from)) (segments (resolve cwd to)) in
  join sep (map (fun _ => str "..") up ++ down).

(** [path.basename(p)]: the last non-empty segment. *)
Definition basename (p : jsstring) : jsstring := last (segments p) [].

Fixpoint drop_while (f : char -> bool) (s : jsstring) : jsstring :=
  match s with
  | x :: s' => if f x then drop_while f s' else s
  | [] => []
  end.

(** [path.dirname(p)]: scanning from the end down to index 1, the text
    before the first separator that follows a non-separator. *)
Definition dirname (p : jsstring) : jsstring :=
  match p with
  | [] => str "."
  | x :: rest =>
      let hasRoot := N.eqb x SLASH in
      let r1 := drop_while (N.eqb SLASH) (rev rest) in
      let r2 := drop_while (fun c => negb (N.eqb SLASH c)) r1 in
      match r2 with
      | [] => if hasRoot then sep else str "."
      | _ =>
          let e := length r2 in
          if hasRoot && Nat.eqb e 1 then str "//" else firstn e p
      end
  end.

End Path.

(* ================================================================== *)
(** ** The file system and the effects of the handlers *)

Module Fs.

Inductive node :=
| File (content : jsstring)
| Dir (size : N).

(** The store: what is at each path. *)
Definition FS := jsstring -> option node.

Definition update (fs : FS) (p : jsstring) (n : option node) : FS :=
  fun q => if str_eqb q p then n else fs q.

(** A computation either returns or throws an [Error] with a message. *)
Inductive res (A : Type) :=
| Val (a : A)
| Throw (msg : jsstring).
Arguments Throw {A} msg.

(** A handler step: reads and updates the store, returns or throws.  The
    store reached when an error is thrown is kept: what was written before
    the throw stays written. *)
Definition M (A : Type) := FS -> res A * FS.

Definition ret {A} (a : A) : M A := fun fs => (Val a, fs).
Definition throw {A} (msg : jsstring) : M A := fun fs => (Throw msg, fs).
Definition bind {A B} (m : M A) (k : A -> M B) : M B :=
  fun fs => match m fs with
            | (Val a, fs') => k a fs'
            | (Throw msg, fs') => (Throw msg, fs')
            end.

(** [try { m } catch {}]. *)
Definition try_ignore (m : M unit) : M unit :=
  fun fs => match m fs with (_, fs') => (Val tt, fs') end.

(** [try { m } catch (e) { return h(e.message) }]. *)
Definition try_catch {A} (m : M A) (h : jsstring -> A) : FS -> A * FS :=
  fun fs => match m fs with
            | (Val a, fs') => (a, fs')
            | (Throw msg, fs') => (h msg, fs')
            end.

Definition errno (code syscall p : jsstring) : jsstring :=
  code ++ str ", " ++ syscall ++ str " '" ++ p ++ str "'".

Definition ENOENT := str "ENOENT: no such file or directory".
Definition EISDIR := str "EISDIR: illegal operation on a directory".
Definition ENOTDIR := str "ENOTDIR: not a directory".
Definition EEXIST := str "EEXIST: file already exists".

Definition existsSync (p : jsstring) : M bool :=
  fun fs => (Val (match fs p with Some _ => true | None => false end), fs).

Definition readFileSync (p : jsstring) : M jsstring :=
  fun fs => match fs p with
            | Some (File c) => (Val c, fs)
            | Some (Dir _) => (Throw (errno EISDIR (str "read") p), fs)
            | None => (Throw (errno ENOENT (str "open") p), fs)
            end.

(** A text as it reads back after it was written as UTF-8: a surrogate
    without its partner is encoded as U+FFFD.  [paired] says that the code
    unit in front is the second half of a pair whose first half was kept. *)
Definition is_high (c : char) : bool := ((55296 <=? c) && (c <? 56320))%N.
Definition is_low (c : char) : bool := ((56320 <=? c) && (c <? 57344))%N.

Fixpoint utf8_text (paired : bool) (s : jsstring) : jsstring :=
  match s with
  | [] => []
  | x :: s' =>
      if paired then x :: utf8_text false s'
      else if is_high x
      then match s' with
           | y :: _ => if is_low y then x :: utf8_text true s'
                       else 65533%N :: utf8_text false s'
           | [] => [65533%N]
           end
      else if is_low x then 65533%N :: utf8_text false s'
      else x :: utf8_text false s'
  end.

(** [fs.writeFileSync(p, c, "utf-8")].  The store holds the text as it
    reads back.  Where nothing exists, a path that ends in a separator
    cannot be created as a file.  The parent directory is not looked up:
    the handlers write to a file that exists or under a directory they have
    just created. *)
Definition writeFileSync (p c : jsstring) : M unit :=
  fun fs => match fs p with
            | Some (Dir _) => (Throw (errno EISDIR (str "open") p), fs)
            | Some (File _) =>
                (Val tt, update fs p (Some (File (utf8_text false c))))
            | None =>
                if Path.ends_with_sep p
                then (Throw (errno EISDIR (str "open") p), fs)
                else (Val tt, update fs p (Some (File (utf8_text false c))))
            end.

Definition copyFileSync (src dst : jsstring) : M unit :=
  fun fs => match fs src, fs dst with
            | Some (File c), Some (Dir _) =>
                (Throw (errno EISDIR (str "copyfile") dst), fs)
            | Some (File c), _ => (Val tt, update fs dst (Some (File c)))
            | Some (Dir _), _ => (Throw (errno EISDIR (str "copyfile") src), fs)
            | None, _ => (Throw (errno ENOENT (str "copyfile") src), fs)
            end.

Definition statSync_size (p : jsstring) : M N :=
  fun fs => match fs p with
            | Some (File c) => (Val (byteLength c), fs)
            | Some (Dir n) => (Val n, fs)
            | None => (Throw (errno ENOENT (str "stat") p), fs)
            end.

(** The directory [d] and the directories above it. *)
Fixpoint ancestors (fuel : nat) (d : jsstring) : list jsstring :=
  match fuel with
  | O => [d]
  | S k => let up := Path.dirname d in
           if str_eqb up d then [d] else d :: ancestors k up
  end.

Definition is_file (fs : FS) (p : jsstring) : bool :=
  match fs p with Some (File _) => true | _ => false end.

(** [fs.mkdirSync(d, { recursive: true })]. *)
Definition mkdirSync_recursive (d : jsstring) : M unit :=
  fun fs =>
    let ds := ancestors (length d) d in
    if existsb (is_file fs) ds
    then (Throw (errno EEXIST (str "mkdir") d), fs)
    else (Val tt,
          fun q => match fs q with
                   | Some n => Some n
                   | None => if array_includes ds q then Some (Dir 4096)
                             else None
                   end).

(** [fs.renameSync(from, to)]: the node moves, with everything below it when
    it is a directory; a file cannot take a name that ends in a separator. *)
Definition renameSync (from to : jsstring) : M unit :=
  fun fs =>
    match fs from, fs to with
    | None, _ => (Throw (errno ENOENT (str "rename") from), fs)
    | Some (File _), Some (Dir _) => (Throw (errno EISDIR (str "rename") to), fs)
    | Some (Dir _), Some (File _) => (Throw (errno ENOTDIR (str "rename") to), fs)
    | Some n, _ =>
        if str_eqb from to then (Val tt, fs)
        else if is_file fs from && Path.ends_with_sep to
        then (Throw (errno ENOTDIR (str "rename") to), fs)
        else (Val tt,
              fun q =>
                if str_eqb q to then Some n
                else if startsWith q (to ++ Path.sep)
                then fs (from ++ skipn (length to) q)
                else if str_eqb q from || startsWith q (from ++ Path.sep)
                then None
                else fs q)
    end.

End Fs.
Export Fs.

Declare Scope engine_scope.
Notation "x <- m ;; k" := (bind m (fun x => k))
  (at level 61, m at next level, right associativity) : engine_scope.
Notation "m ;;; k" := (bind m (fun _ => k))
  (at level 61, right associativity) : engine_scope.

(* ================================================================== *)
(** ** Regular expressions, as far as [globToRegExp] produces them *)

Module Regex.

(** What one code unit is matched against. *)
Inductive cls :=
| Lit (c : char)
| AnyChar                              (* [.]: all but line terminators *)
| OneOf (negated : bool) (members : list char).

Inductive re :=
| Never
| Eps
| Sym (k : cls)
| Cat (a b : re)
| Alt (a b : re)
| Star (a : re).

Definition is_line_terminator (c : char) : bool :=
  existsb (N.eqb c) [10; 13; 8232; 8233]%N.

Definition cls_matches (k : cls) (c : char) : bool :=
  match k with
  | Lit d => N.eqb c d
  | AnyChar => negb (is_line_terminator c)
  | OneOf neg ms => xorb neg (existsb (N.eqb c) ms)
  end.

Fixpoint nullable (r : re) : bool :=
  match r with
  | Never => false
  | Eps => true
  | Sym _ => false
  | Cat a b => nullable a && nullable b
  | Alt a b => nullable a || nullable b
  | Star _ => true
  end.

(** The derivative of [r] by the code unit [c]. *)
Fixpoint deriv (c : char) (r : re) : re :=
  match r with
  | Never => Never
  | Eps => Never
  | Sym k => if cls_matches k c then Eps else Never
  | Cat a b =>
      if nullable a then Alt (Cat (deriv c a) b) (deriv c b)
      else Cat (deriv c a) b
  | Alt a b => Alt (deriv c a) (deriv c b)
  | Star a => Cat (deriv c a) (Star a)
  end.

(** [r] matches the whole of [s]. *)
Definition matches (r : re) (s : jsstring) : bool :=
  nullable (fold_left (fun r c => deriv c r) s r).

Definition is_syntax_char (c : char) : bool :=
  existsb (N.eqb c) (str "^$\.*+?()[]{}|/-").

(** The members of a class, up to the closing bracket. *)
Fixpoint parse_class (s : jsstring) (acc : list char)
  : option (list char * jsstring) :=
  match s with
  | [] => None
  | x :: s' =>
      if N.eqb x 93 then Some (rev acc, s')
      else if N.eqb x BACKSLASH
      then match s' with
           | y :: s'' => if is_syntax_char y then parse_class s'' (y :: acc)
                         else None
           | [] => None
           end
      else parse_class s' (x :: acc)
  end.

(** One atom; [group] parses the inside of a parenthesis. *)
Definition parse_atom (group : jsstring -> option (re * jsstring))
    (s : jsstring) : option (re * jsstring) :=
  match s with
  | [] => None
  | x :: s' =>
      if N.eqb x 40 then                                   (* ( *)
        let inner := if startsWith s' (str "?:") then skipn 2 s' else s' in
        match group inner with
        | Some (r, y :: rest) => if N.eqb y 41 then Some (r, rest) else None
        | _ => None
        end
      else if N.eqb x 91 then                              (* [ *)
        match s' with
        | y :: s'' =>
            if N.eqb y 94
            then match parse_class s'' [] with
                 | Some (ms, rest) => Some (Sym (OneOf true ms), rest)
                 | None => None
                 end
            else match parse_class s' [] with
                 | Some (ms, rest) => Some (Sym (OneOf false ms), rest)
                 | None => None
                 end
        | [] => None
        end
      else if N.eqb x BACKSLASH then
        match s' with
        | y :: rest => if is_syntax_char y then Some (Sym (Lit y), rest)
                       else None
        | [] => None
        end
      else if N.eqb x DOT then Some (Sym AnyChar, s')
      else if existsb (N.eqb x) (str "*+?)|^$]{}") then None
      else Some (Sym (Lit x), s')
  end.

(** A quantifier after an atom, greedy or lazy: both accept the same
    strings. *)
Definition parse_quant (a : re) (s : jsstring) : re * jsstring :=
  let lazy_mark rest :=
    match rest with
    | y :: rest' => if N.eqb y QUESTION then rest' else rest
    | [] => rest
    end in
  match s with
  | x :: rest =>
      if N.eqb x STAR then (Star a, lazy_mark rest)
      else if N.eqb x 43 then (Cat a (Star a), lazy_mark rest)
      else if N.eqb x QUESTION then (Alt Eps a, lazy_mark rest)
      else (a, s)
  | [] => (a, s)
  end.

Fixpoint parse_seq (group : jsstring -> option (re * jsstring)) (fuel : nat)
    (s : jsstring) : option (re * jsstring) :=
  match fuel with
  | O => None
  | S k =>
      match s with
      | [] => Some (Eps, [])
      | x :: _ =>
          if N.eqb x 41 || N.eqb x 124 then Some (Eps, s)
          else match parse_atom group s with
               | None => None
               | Some (a, s1) =>
                   let '(q, s2) := parse_quant a s1 in
                   match parse_seq group k s2 with
                   | Some (r, s3) => Some (Cat q r, s3)
                   | None => None
                   end
               end
      end
  end.

Fixpoint parse_alts (group : jsstring -> option (re * jsstring)) (fuel : nat)
    (s : jsstring) : option (re * jsstring) :=
  match fuel with
  | O => None
  | S k =>
      match parse_seq group (S (length s)) s with
      | Some (a, x :: rest) =>
          if N.eqb x 124
          then match parse_alts group k rest with
               | Some (b, rest') => Some (Alt a b, rest')
               | None => None
               end
          else Some (a, x :: rest)
      | other => other
      end
  end.

Fixpoint parse_re (fuel : nat) (s : jsstring) : option (re * jsstring) :=
  match fuel with
  | O => None
  | S k => parse_alts (parse_re k) (S (length s)) s
  end.

(** [new RegExp(src)] for a source anchored at both ends; [None] stands for
    the [SyntaxError] of a source outside the syntax above. *)
Definition RegExp (src : jsstring) : option re :=
  match src with
  | x :: body =>
      match rev body with
      | y :: ydob =>
          if N.eqb x 94 && N.eqb y 36
          then match parse_re (S (length body)) (rev ydob) with
               | Some (r, []) => Some r
               | _ => None
               end
          else None
      | [] => None
      end
  | [] => None
  end.

(** [re.test(s)]. *)
Definition test (r : re) (s : jsstring) : bool := matches r s.

End Regex.

(* ================================================================== *)
(** ** The engine: [server.ts] *)

Open Scope engine_scope.

(** Replies, as the objects the handlers pass to [JSON.stringify]; [Text] is
    the raw text that view returns. *)
Inductive reply :=
| StatusOkRange (file : jsstring) (start end_ : Z)
| StatusOk (file note : jsstring)
| StatusError (file note : jsstring)
| StatusNotEnabled (tool : jsstring)
| StatusConfirmRequired (file : jsstring) (size : N)
| StatusConfirm (file : jsstring) (size : N)
| ErrorReply (error : jsstring) (file : option jsstring)
| Text (output : jsstring).

Record ViewArgs := {
  view_file_path : jsstring;
  view_lines : option jsstring }.

Record LineReplaceArgs := {
  file_path : jsstring;
  search : jsstring;
  first_replaced_line : jsnum;
  last_replaced_line : jsnum;
  replace : jsstring }.

Record WriteArgs := {
  write_file_path : jsstring;
  content : jsstring }.

Record RenameArgs := {
  original_file_path : jsstring;
  new_file_path : jsstring;
  rename_confirm : bool }.

Record DeleteArgs := {
  delete_file_path : jsstring;
  delete_confirm : bool }.

(** Feature flags. *)
Definition ENABLE_DOWNLOAD := false.
Definition ENABLE_DEPS := false.
Definition ENABLE_DELETE := false.

(** The notes of the error replies. *)
Definition note_traversal := str "Path traversal blocked".
Definition note_escapes := str "Path escapes workspace".
Definition note_node_modules := str "Operation not allowed in node_modules".
Definition note_git := str "Operation not allowed in .git".
Definition note_env := str "Operation not allowed on .env files".
Definition note_not_found :=
  str "File not found. Use paths relative to workspace root, e.g. 'src/App.tsx' (no 'workspace/' prefix).".
Definition note_invalid_lines := str "Invalid line numbers".
Definition note_beyond_eof := str "Start line beyond EOF".
Definition note_own_line := str "Ellipsis must be on its own line".
Definition note_prefix_suffix := str "Prefix/suffix do not match target lines".
Definition note_mismatch := str "Search content mismatch in specified range".
Definition note_too_large := str "Content exceeds 200KB; use lov-line-replace".
Definition note_too_many_changes :=
  str "Change exceeds 400 lines; use lov-line-replace".
Definition note_range_format := str "Invalid lines range format".

(** The error taxonomy of the specification, by the notes it stands for. *)
Definition MalformedTemplateError := note_own_line.

Definition ellipsisToken : jsstring := LF :: str "..." ++ [LF].

(** [parseLineRanges]. *)
Definition parse_one_range (range : jsstring) : res (Z * Z) :=
  let parts := map trim (split_char 45%N range) in
  let start := Math_max (Num 1) (parseInt (nth_error parts 0)) in
  let end_ := Math_max start (parseInt (nth_error parts 1)) in
  match start, end_ with
  | Num s, Num e => Val (s, e)
  | _, _ => Throw note_range_format
  end.

Fixpoint map_res {A B} (f : A -> res B) (l : list A) : res (list B) :=
  match l with
  | [] => Val []
  | x :: l' =>
      match f x with
      | Throw msg => Throw msg
      | Val y => match map_res f l' with
                 | Throw msg => Throw msg
                 | Val ys => Val (y :: ys)
                 end
      end
  end.

Definition parseLineRanges (input : jsstring) : res (list (Z * Z)) :=
  map_res parse_one_range
    (filter (fun s => negb (str_eqb s []))
       (map trim (split_char 44%N input))).

(** [globToRegExp]: the source text handed to [new RegExp], then the
    expression. *)
Definition is_escaped_meta (c : char) : bool :=
  existsb (N.eqb c) (str ".+^${}()|[]\").

Definition escape_meta (glob : jsstring) : jsstring :=
  flat_map (fun c => if is_escaped_meta c then [BACKSLASH; c] else [c]) glob.

Definition globToRegExp_source (glob : jsstring) : jsstring :=
  let escaped :=
    replaceAll (str "?") (str ".")
      (replaceAll (str "*") (str "[^/]*")
         (replaceAll (str "**") (str ".*")
            (replaceAll (str "**/") (str "(?:.*?/)?")
               (escape_meta glob)))) in
  str "^" ++ escaped ++ str "$".

Definition globToRegExp (glob : jsstring) : option Regex.re :=
  Regex.RegExp (globToRegExp_source glob).

(** [normalizeWorkspaceRel]. *)
Definition normalizeWorkspaceRel (p : jsstring) : jsstring :=
  let rel :=
    map (fun c => if N.eqb c BACKSLASH then SLASH else c)
      (Path.drop_while (fun c => N.eqb c BACKSLASH || N.eqb c SLASH) p) in
  if startsWith (toLowerCase rel) (str "workspace/")
  then slice_from rel (Z.of_nat (length (str "workspace/")))
  else rel.

(** The [file] of a reply built in a handler's [catch]. *)
Definition catch_file (p : jsstring) : jsstring :=
  match p with
  | [] => []
  | _ => normalizeWorkspaceRel p
  end.

(** The naive changed-lines count of [lov-write]: [n] iterations are left,
    [i] is the index compared next. *)
Fixpoint changed_loop (prevLines newLines : list jsstring) (n i changed : nat)
  : nat :=
  match n with
  | O => changed
  | S n' =>
      let a := nth i prevLines [] in
      let b := nth i newLines [] in
      let changed := if str_eqb a b then changed else S changed in
      if (400 <? changed)%nat then changed
      else changed_loop prevLines newLines n' (S i) changed
  end.

(** The check of the search template against the target block in
    [lov-line-replace]: the note of the error reply, or [None] when the
    template is accepted. *)
Definition check_search (targetBlock searchNorm : jsstring) : option jsstring :=
  if includes searchNorm (str "...") then
    match indexOf searchNorm ellipsisToken with
    | None =>
        match split_lit ellipsisToken searchNorm with
        | [prefix; suffix] =>
            if negb (startsWith targetBlock prefix)
               || negb (endsWith targetBlock suffix)
            then Some note_prefix_suffix else None
        | _ => Some note_own_line
        end
    | Some idx =>
        let prefix := slice searchNorm 0 (Z.of_nat idx) in
        let suffix :=
          slice_from searchNorm (Z.of_nat idx + Z.of_nat (length ellipsisToken)) in
        if negb (startsWith targetBlock prefix)
           || negb (endsWith targetBlock suffix)
        then Some note_prefix_suffix else None
    end
  else if negb (str_eqb targetBlock searchNorm) then Some note_mismatch
  else None.

Definition lift {A} (r : res A) : M A :=
  fun fs => (r, fs).

Section Engine.

(** [process.cwd()] and the directory of the module. *)
Variable cwd : jsstring.
Variable __dirname : jsstring.

Definition WORKSPACE : jsstring :=
  Path.resolve cwd (Path.join_paths [__dirname; str ".."; str "workspace"]).

Definition isPathInside (childPath parentPath : jsstring) : bool :=
  let resolvedChild := Path.resolve cwd childPath ++ Path.sep in
  let resolvedParent := Path.resolve cwd parentPath ++ Path.sep in
  startsWith resolvedChild resolvedParent.

(** [safeJoin]: blocks traversal and ensures the path is within [base]. *)
Definition safeJoin (base : jsstring) (segments : list jsstring)
  : res jsstring :=
  if existsb (fun seg => includes seg (str "..")) segments
  then Throw note_traversal
  else
    let joined := Path.join_paths (base :: segments) in
    if negb (isPathInside joined base) then Throw note_escapes
    else Val joined.

Definition isForbiddenPath (absPath : jsstring) : option jsstring :=
  let rel := Path.relative cwd WORKSPACE absPath in
  if startsWith rel (str "..") then Some note_escapes
  else
    let parts := split_char SLASH rel in
    if array_includes parts (str "node_modules") then Some note_node_modules
    else if array_includes parts (str ".git") then Some note_git
    else if startsWith (Path.basename absPath) (str ".env") then Some note_env
    else None.

(** The tool handlers. *)

Definition lov_view (a : ViewArgs) : FS -> reply * FS :=
  try_catch
    (let rel := normalizeWorkspaceRel (view_file_path a) in
     abs <- lift (safeJoin WORKSPACE [rel]) ;;
     present <- existsSync abs ;;
     if negb present then ret (ErrorReply note_not_found (Some rel))
     else
       raw <- readFileSync abs ;;
       let allLines := split_lines raw in
       let first500 :=
         join [LF]
           (slice allLines 0 (Z.min 500 (Z.of_nat (length allLines)))) in
       output <-
         match view_lines a with
         | Some lines =>
             match trim lines with
             | [] => ret first500
             | _ =>
                 ranges <- lift (parseLineRanges lines) ;;
                 ret (join [LF]
                        (map (fun '(start, end_) =>
                                join [LF] (slice allLines (start - 1) end_))
                           ranges))
             end
         | None => ret first500
         end ;;
       let output :=
         if (20000 <? Z.of_nat (length output))%Z then slice output 0 20000
         else output in
       ret (Text output))
    (fun msg => ErrorReply msg None).

Definition lov_line_replace (a : LineReplaceArgs) : FS -> reply * FS :=
  try_catch
    (let rel := normalizeWorkspaceRel (file_path a) in
     abs <- lift (safeJoin WORKSPACE [rel]) ;;
     match isForbiddenPath abs with
     | Some forbidden => ret (StatusError rel forbidden)
     | None =>
         present <- existsSync abs ;;
         if negb present then ret (StatusError rel note_not_found)
         else
           raw <- readFileSync abs ;;
           let lines := split_lines raw in
           let start := Math_max (Num 1) (first_replaced_line a) in
           let end_ := Math_max start (last_replaced_line a) in
           match start, end_ with
           | Num start, Num end_ =>
               let len := Z.of_nat (length lines) in
               if (start >? len)%Z then ret (StatusError rel note_beyond_eof)
               else
                 let targetBlock :=
                   join [LF] (slice lines (start - 1) (Z.min end_ len)) in
                 let searchNorm := normalize_crlf (search a) in
                 match check_search targetBlock searchNorm with
                 | Some note => ret (StatusError rel note)
                 | None =>
                     try_ignore (copyFileSync abs (abs ++ str ".bak")) ;;;
                     let replaceLines :=
                       split_char LF (normalize_crlf (replace a)) in
                     let newLines :=
                       slice lines 0 (start - 1) ++ replaceLines
                         ++ slice_from lines end_ in
                     writeFileSync abs (join [LF] newLines) ;;;
                     let newEnd :=
                       ((start - 1) + Z.of_nat (length replaceLines))%Z in
                     ret (StatusOkRange rel start newEnd)
                 end
           | _, _ => ret (StatusError rel note_invalid_lines)
           end
     end)
    (fun msg => StatusError (catch_file (file_path a)) msg).

Definition lov_write (a : WriteArgs) : FS -> reply * FS :=
  try_catch
    (let rel := normalizeWorkspaceRel (write_file_path a) in
     if (200 * 1024 <? byteLength (content a))%N
     then ret (StatusError rel note_too_large)
     else
       abs <- lift (safeJoin WORKSPACE [rel]) ;;
       match isForbiddenPath abs with
       | Some forbidden => ret (StatusError rel forbidden)
       | None =>
           present <- existsSync abs ;;
           if present then
             prev <- readFileSync abs ;;
             let prevLines := split_lines prev in
             let newLines := split_char LF (normalize_crlf (content a)) in
             let maxLen := Nat.max (length prevLines) (length newLines) in
             let changed := changed_loop prevLines newLines maxLen 0 0 in
             if (400 <? changed)%nat
             then ret (StatusError rel note_too_many_changes)
             else
               try_ignore (copyFileSync abs (abs ++ str ".bak")) ;;;
               writeFileSync abs (join [LF] newLines) ;;;
               ret (StatusOk rel (str "Overwritten with small changes"))
           else
             mkdirSync_recursive (Path.dirname abs) ;;;
             writeFileSync abs (normalize_crlf (content a)) ;;;
             ret (StatusOk rel (str "File created"))
       end)
    (fun msg => StatusError (catch_file (write_file_path a)) msg).

Definition lov_rename (a : RenameArgs) : FS -> reply * FS :=
  try_catch
    (let relFrom := normalizeWorkspaceRel (original_file_path a) in
     let relTo := normalizeWorkspaceRel (new_file_path a) in
     absFrom <- lift (safeJoin WORKSPACE [relFrom]) ;;
     absTo <- lift (safeJoin WORKSPACE [relTo]) ;;
     match isForbiddenPath absFrom, isForbiddenPath absTo with
     | Some forbidFrom, _ => ret (StatusError relFrom forbidFrom)
     | None, Some forbidTo => ret (StatusError relTo forbidTo)
     | None, None =>
         present <- existsSync absFrom ;;
         if negb present then ret (StatusError relFrom (str "Source not found"))
         else
           let relFromDir := Path.dirname (Path.relative cwd WORKSPACE absFrom) in
           let relToDir := Path.dirname (Path.relative cwd WORKSPACE absTo) in
           if negb (str_eqb relFromDir relToDir)
           then ret (StatusError relFrom
                       (str "Cross-directory renames are blocked"))
           else
             taken <- existsSync absTo ;;
             if taken && negb (rename_confirm a)
             then ret (StatusError relTo
                         (str "Target exists; pass confirm:true to overwrite (backup will be created)"))
             else
               (if taken
                then try_ignore (renameSync absTo (absTo ++ str ".bak"))
                else ret tt) ;;;
               renameSync absFrom absTo ;;;
               ret (StatusOk relTo
                      (str "Renamed (target backup created if existed)"))
     end)
    (fun msg =>
       StatusError
         (match new_file_path a with
          | [] => match original_file_path a with
                  | [] => []
                  | p => normalizeWorkspaceRel p
                  end
          | p => normalizeWorkspaceRel p
          end) msg).

(** [lov-delete], by the value of its feature flag. *)
Definition lov_delete_flagged (enabled : bool) (a : DeleteArgs)
  : FS -> reply * FS :=
  try_catch
    (if negb enabled then ret (StatusNotEnabled (str "lov-delete"))
     else
       let rel := normalizeWorkspaceRel (delete_file_path a) in
       abs <- lift (safeJoin WORKSPACE [rel]) ;;
       match isForbiddenPath abs with
       | Some forbidden => ret (StatusError rel forbidden)
       | None =>
           present <- existsSync abs ;;
           if negb present then ret (StatusError rel note_not_found)
           else
             size <- statSync_size abs ;;
             if negb (delete_confirm a)
             then ret (StatusConfirmRequired rel size)
             else ret (StatusConfirm rel size)
       end)
    (fun msg => StatusError (catch_file (delete_file_path a)) msg).

Definition lov_delete : DeleteArgs -> FS -> reply * FS :=
  lov_delete_flagged ENABLE_DELETE.

End Engine.

(** The scan of one file in [lov-search-files].  [query] is [re.test] on a
    line, from [lastIndex] 0, to which the loop resets it; [i] is the index
    of the line looked at next, [fileMatches] the matches so far. *)
Section Search.

Variable query : jsstring -> bool.

Fixpoint scan_lines (lines : list jsstring) (i : Z)
    (fileMatches : list (Z * jsstring)) : list (Z * jsstring) :=
  match lines with
  | [] => fileMatches
  | line :: rest =>
      if (length fileMatches <? 3)%nat
      then scan_lines rest (i + 1)
             (if query line
              then fileMatches ++ [((i + 1)%Z, slice line 0 200)]
              else fileMatches)
      else fileMatches
  end.

End Search.

(** [s.lastIndexOf(c)] for a string [c] of one code unit, [None] standing
    for [-1]. *)
Fixpoint lastIndexOf (s : jsstring) (c : char) : option nat :=
  match s with
  | [] => None
  | x :: s' =>
      match lastIndexOf s' c with
      | Some i => Some (S i)
      | None => if N.eqb x c then Some 0%nat else None
      end
  end.

(** [isPinnedVersionSpec].  Its two regular expressions, which use [\d] and
    ranges in classes, are written out: the class [[~^><=*xX]], searched
    anywhere in the version, and the anchored
    [^\d+\.\d+\.\d+(?:[-+][0-9A-Za-z.-]+)?$]. *)
Definition range_chars : jsstring := str "~^><=*xX".

Definition one_or_more (r : Regex.re) : Regex.re := Regex.Cat r (Regex.Star r).

Definition digit_class : Regex.cls := Regex.OneOf false (str "0123456789").

Definition tag_class : Regex.cls :=
  Regex.OneOf false
    (str "0123456789ABCDEFGHIJKLMNOPQRSTUVWXYZabcdefghijklmnopqrstuvwxyz.-").

Definition semver_pin : Regex.re :=
  let digits := one_or_more (Regex.Sym digit_class) in
  let dot := Regex.Sym (Regex.Lit DOT) in
  Regex.Cat digits
    (Regex.Cat dot
       (Regex.Cat digits
          (Regex.Cat dot
             (Regex.Cat digits
                (Regex.Alt Regex.Eps
                   (Regex.Cat (Regex.Sym (Regex.OneOf false (str "-+")))
                      (one_or_more (Regex.Sym tag_class)))))))).

Definition isPinnedVersionSpec (spec : jsstring) : bool :=
  if str_eqb (trim spec) [] then false
  else
    match lastIndexOf spec 64%N with
    | None => false
    | Some lastAt =>
        if (lastAt =? 0)%nat || (lastAt =? length spec - 1)%nat then false
        else
          let name := slice spec 0 (Z.of_nat lastAt) in
          let version := slice_from spec (Z.of_nat lastAt + 1) in
          if str_eqb name [] || str_eqb version [] then false
          else if existsb (fun c => existsb (N.eqb c) range_chars) version
          then false
          else if negb (Regex.test semver_pin version) then false
          else true
    end.

(* ================================================================== *)
(** ** Vocabulary of the properties *)

Definition is_ok (r : reply) : Prop :=
  match r with
  | StatusOkRange _ _ _ | StatusOk _ _ => True
  | _ => False
  end.

Definition is_error (r : reply) : Prop :=
  match r with
  | StatusError _ _ | ErrorReply _ _ => True
  | _ => False
  end.

(** Lines [first..last] (1-based, inclusive) of a file, joined with LF. *)
Definition target_block (lines : list jsstring) (first last : Z) : jsstring :=
  join [LF]
    (firstn (Z.to_nat (last - first + 1)) (skipn (Z.to_nat (first - 1)) lines)).

(** Every offset at which [t] occurs in [s]. *)
Fixpoint occurrences (s t : jsstring) : list nat :=
  (if startsWith s t then [0%nat] else [])
  ++ match s with
     | [] => []
     | _ :: s' => map S (occurrences s' t)
     end.

(** The number of positions, up to the longer of the two line sequences, at
    which the lines differ (a missing line counting as empty). *)
Definition diff_count (prevLines newLines : list jsstring) : nat :=
  length
    (filter (fun i => negb (str_eqb (nth i prevLines []) (nth i newLines [])))
       (seq 0 (Nat.max (length prevLines) (length newLines)))).

(** [child] lies in [root]: its resolved segments extend those of [root]. *)
Definition is_descendant (cwd child root : jsstring) : Prop :=
  exists rest,
    Path.segments (Path.resolve cwd child)
    = Path.segments (Path.resolve cwd root) ++ rest.

(** What view returns without a line range: the first 500 lines, cut to
    20000 code units. *)
Definition default_view (text : jsstring) : jsstring :=
  let lines := split_lines text in
  let output :=
    join [LF] (slice lines 0 (Z.min 500 (Z.of_nat (length lines)))) in
  if (20000 <? Z.of_nat (length output))%Z then slice output 0 20000
  else output.

(** The store after the best-effort backup of [p]. *)
Definition after_backup (p : jsstring) (fs : FS) : FS :=
  snd (try_ignore (copyFileSync p (p ++ str ".bak")) fs).


(** A line: a text without LF. *)
Definition lf_free (l : jsstring) : Prop := ~ In LF l.

(** The segments that [normalizeString] keeps where it meets no [..]. *)
Definition kept (s : jsstring) : bool :=
  negb (str_eqb s [] || str_eqb s (str ".")).

(** A segment of a normalized absolute path. *)
Definition plain (s : jsstring) : Prop :=
  s <> [] /\ s <> str "." /\ s <> str ".." /\ ~ In SLASH s.

(** The lines at position [i] differ, a missing line counting as empty. *)
Definition differs (prevLines newLines : list jsstring) (i : nat) : bool :=
  negb (str_eqb (nth i prevLines []) (nth i newLines [])).

(** A separator that [normalizeWorkspaceRel] strips from the front. *)
Definition is_separator (c : char) : bool := N.eqb c BACKSLASH || N.eqb c SLASH.

(** A backslash read as a slash. *)
Definition to_slash (c : char) : char := if N.eqb c BACKSLASH then SLASH else c.

(** A line of a text with LF line ends only. *)
Definition plain_line (l : jsstring) : Prop := ~ In LF l /\ ~ In CR l.

(** The strings an expression stands for. *)
Inductive denotes : Regex.re -> jsstring -> Prop :=
| D_eps : denotes Regex.Eps []
| D_sym k c : Regex.cls_matches k c = true -> denotes (Regex.Sym k) [c]
| D_cat a b s t :
    denotes a s -> denotes b t -> denotes (Regex.Cat a b) (s ++ t)
| D_alt_l a b s : denotes a s -> denotes (Regex.Alt a b) s
| D_alt_r a b s : denotes b s -> denotes (Regex.Alt a b) s
| D_star_nil a : denotes (Regex.Star a) []
| D_star_app a s t :
    denotes a s -> denotes (Regex.Star a) t -> denotes (Regex.Star a) (s ++ t).

(** What the replacements of [globToRegExp] make of one character of a glob
    in which no two stars are adjacent. *)
Definition glob_token (c : char) : jsstring :=
  if is_escaped_meta c then [BACKSLASH; c]
  else if N.eqb c STAR then str "[^/]*"
  else if N.eqb c QUESTION then str "."
  else [c].

(** The expression of one such character, and of a glob of them. *)
Definition glob_atom (c : char) : Regex.re :=
  if N.eqb c STAR then Regex.Star (Regex.Sym (Regex.OneOf true [SLASH]))
  else if N.eqb c QUESTION then Regex.Sym Regex.AnyChar
  else Regex.Sym (Regex.Lit c).

Definition glob_seq (glob : jsstring) (r : Regex.re) : Regex.re :=
  fold_right (fun c acc => Regex.Cat (glob_atom c) acc) r glob.

(** The piece of a path that one character of a glob accepts: a star any run
    without a slash, a question mark any one code unit but a line
    terminator, any other character itself. *)
Definition glob_piece (c : char) (piece : jsstring) : Prop :=
  if N.eqb c STAR then ~ In SLASH piece
  else exists x,
      piece = [x] /\
      if N.eqb c QUESTION then Regex.is_line_terminator x = false else x = c.

(** A number as it is written in a version: a non-empty run of decimal
    digits. *)
Definition digit_run (s : jsstring) : Prop :=
  s <> [] /\ Forall (fun c => is_digit c = true) s.

(** The value of a run of decimal digits. *)
Definition decimal (s : jsstring) : Z :=
  fold_left (fun acc c => (10 * acc + Z.of_N (c - 48))%Z) s 0%Z.

(** The lines after the first [i], with their numbers. *)
Fixpoint numbered (lines : list jsstring) (i : Z) : list (Z * jsstring) :=
  match lines with
  | [] => []
  | line :: rest => ((i + 1)%Z, line) :: numbered rest (i + 1)
  end.

(** A text in which every surrogate has its partner, so that it reads back
    from UTF-8 as it was written.  [paired] says that the second half of a
    pair is due first. *)
Fixpoint well_formed_from (paired : bool) (s : jsstring) : bool :=
  match s with
  | [] => negb paired
  | x :: s' =>
      if paired then is_low x && well_formed_from false s'
      else if is_high x then well_formed_from true s'
      else negb (is_low x) && well_formed_from false s'
  end.

Definition well_formed (s : jsstring) : Prop := well_formed_from false s = true.

(** No quantifier comes first in [s]. *)
Definition no_quantifier (s : jsstring) : Prop :=
  match s with
  | x :: _ => N.eqb x STAR = false /\ N.eqb x 43 = false
              /\ N.eqb x QUESTION = false
  | [] => True
  end.

(* ================================================================== *)
(** ** Concrete inputs *)

(** An engine installed in [/app/engine], so that the workspace root is
    [/app/workspace], and a store that holds one file. *)
Definition ex_cwd : jsstring := str "/".
Definition ex_dirname : jsstring := str "/app/engine".

Definition text_of (lines : list string) : jsstring := join [LF] (map str lines).

Definition one_file (p : string) (text : jsstring) : FS :=
  fun q => if str_eqb q (str p) then Some (File text) else None.

(** Five lines [L1..L5] in [a.txt]. *)
Definition ex_five : jsstring := text_of ["L1"; "L2"; "L3"; "L4"; "L5"]%string.
Definition ex_store : FS := one_file "/app/workspace/a.txt" ex_five.

Definition ex_replace (search : jsstring) (first last : Z) : LineReplaceArgs :=
  {| file_path := str "a.txt";
     search := search;
     first_replaced_line := Num first;
     last_replaced_line := Num last;
     replace := str "X" |}.






(** Contents over the limits of whole-file write. *)
Definition ex_big : jsstring := repeat 97%N (N.to_nat 204801).
Definition ex_401_a : jsstring := join [LF] (repeat (str "a") 401).
Definition ex_401_b : jsstring := join [LF] (repeat (str "b") 401).

(* ================================================================== *)
(** ** Proof steps *)

(** Closes a case in which a handler has answered with an error reply and
    the store it was given. *)
Ltac early_error := left; do 2 eexists; reflexivity.

(** Close a closed goal by evaluation: an equation, and a chain of
    comparisons. *)
Ltac run := vm_compute; reflexivity.
Ltac range := vm_compute; intuition discriminate.

(* ================================================================== *)
(** ** Strings and arrays *)

Lemma str_eqb_refl (a : jsstring) : str_eqb a a = true.
Proof.
  induction a as [|x a IH]; simpl; [reflexivity|].
  now rewrite N.eqb_refl, IH.
Qed.

Lemma str_eqb_eq (a b : jsstring) : str_eqb a b = true <-> a = b.
Proof.
  split.
  - revert b; induction a as [|x a IH]; intros [|y b]; simpl; try easy.
    intros H. apply andb_true_iff in H as [Hx Hr].
    apply N.eqb_eq in Hx. now rewrite Hx, (IH b Hr).
  - intros ->. apply str_eqb_refl.
Qed.

Lemma str_eqb_neq (a b : jsstring) : str_eqb a b = false <-> a <> b.
Proof.
  rewrite <- str_eqb_eq. destruct (str_eqb a b); split; congruence.
Qed.

Lemma startsWith_app (p r : jsstring) : startsWith (p ++ r) p = true.
Proof.
  induction p as [|y p IH]; simpl; [reflexivity|].
  now rewrite N.eqb_refl, IH.
Qed.

Lemma startsWith_spec (s p : jsstring) :
  startsWith s p = true <-> exists r, s = p ++ r.
Proof.
  split.
  - revert s; induction p as [|y p IH]; intros s H.
    + now exists s.
    + destruct s as [|x s]; simpl in H; [discriminate|].
      apply andb_true_iff in H as [Hx Hr]. apply N.eqb_eq in Hx.
      destruct (IH s Hr) as [r ->]. exists r. now rewrite Hx.
  - intros [r ->]. apply startsWith_app.
Qed.

Lemma endsWith_spec (s p : jsstring) :
  endsWith s p = true <-> exists r, s = r ++ p.
Proof.
  unfold endsWith. rewrite andb_true_iff, Nat.leb_le, str_eqb_eq. split.
  - intros [_ H]. exists (firstn (length s - length p) s).
    pose proof (firstn_skipn (length s - length p) s) as E.
    rewrite H in E. now symmetry.
  - intros [r ->]. rewrite length_app. split; [lia|].
    replace (length r + length p - length p)%nat with (length r + 0)%nat by lia.
    now rewrite skipn_app, Nat.add_0_r, skipn_all, Nat.sub_diag.
Qed.

Lemma endsWith_app (r p : jsstring) : endsWith (r ++ p) p = true.
Proof. apply endsWith_spec. now exists r. Qed.

Lemma slice_nonneg {A} (l : list A) (a b : Z) :
  (0 <= a)%Z -> (0 <= b)%Z ->
  slice l a b = firstn (Z.to_nat (b - a)) (skipn (Z.to_nat a) l).
Proof.
  intros Ha Hb. unfold slice, rel_index.
  destruct (Z.ltb_spec a 0); [lia|]. destruct (Z.ltb_spec b 0); [lia|].
  set (len := length l).
  destruct (Z.le_gt_cases a (Z.of_nat len)) as [Hal|Hal].
  - rewrite (Z.min_l a) by lia.
    destruct (Z.le_gt_cases b (Z.of_nat len)) as [Hbl|Hbl].
    + now rewrite (Z.min_l b) by lia.
    + rewrite (Z.min_r b) by lia.
      rewrite !firstn_all2; [reflexivity| |]; rewrite length_skipn; fold len; lia.
  - rewrite (Z.min_r a) by lia.
    rewrite !skipn_all2 by (fold len; lia). now rewrite !firstn_nil.
Qed.

Lemma slice_from_nonneg {A} (l : list A) (a : Z) :
  (0 <= a)%Z -> slice_from l a = skipn (Z.to_nat a) l.
Proof.
  intros Ha. unfold slice_from, rel_index.
  destruct (Z.ltb_spec a 0); [lia|].
  destruct (Z.le_gt_cases a (Z.of_nat (length l))).
  - now rewrite Z.min_l by lia.
  - rewrite Z.min_r by lia. rewrite !skipn_all2; [reflexivity|lia|lia].
Qed.

Lemma indexOf_occurrences (s t : jsstring) :
  indexOf s t = hd_error (occurrences s t).
Proof.
  induction s as [|x s IH].
  - simpl. now destruct (startsWith [] t).
  - cbn [indexOf occurrences]. destruct (startsWith (x :: s) t); [reflexivity|].
    cbn [app]. rewrite IH. now destruct (occurrences s t).
Qed.

Lemma occurrences_spec (s t : jsstring) (i : nat) :
  In i (occurrences s t) <-> exists p q, s = p ++ t ++ q /\ length p = i.
Proof.
  revert i; induction s as [|x s IH]; intros i.
  - cbn [occurrences]. rewrite app_nil_r. split.
    + destruct (startsWith [] t) eqn:E; [|easy].
      intros [<-|[]]. apply startsWith_spec in E as [r Hr].
      exists [], r. now split.
    + intros (p & q & H & Hl). destruct p; [|discriminate].
      subst i. simpl in H. symmetry in H. apply app_eq_nil in H as [-> _].
      simpl. now left.
  - cbn [occurrences]. rewrite in_app_iff, in_map_iff. split.
    + intros [H|(j & <- & Hj)].
      * destruct (startsWith (x :: s) t) eqn:E; [|easy].
        destruct H as [<-|[]]. apply startsWith_spec in E as [r Hr].
        exists [], r. now split.
      * apply IH in Hj as (p & q & -> & Hl). exists (x :: p), q.
        simpl. now rewrite Hl.
    + intros (p & q & H & Hl). destruct p as [|y p].
      * left. simpl in H. rewrite H. rewrite startsWith_app. subst i. now left.
      * right. simpl in H. injection H as -> ->. simpl in Hl.
        exists (length p). split; [assumption|]. apply IH. now exists p, q.
Qed.

(* ================================================================== *)
(** ** The store *)

Lemma bak_differs (p : jsstring) : str_eqb p (p ++ str ".bak") = false.
Proof.
  apply str_eqb_neq. intros H. apply (f_equal (@length _)) in H.
  rewrite length_app in H. simpl in H. lia.
Qed.

Lemma try_ignore_val (m : M unit) (fs : FS) :
  try_ignore m fs = (Val tt, snd (try_ignore m fs)).
Proof. unfold try_ignore. now destruct (m fs). Qed.

Lemma after_backup_same (p : jsstring) (fs : FS) :
  after_backup p fs p = fs p.
Proof.
  unfold after_backup, try_ignore, copyFileSync.
  destruct (fs p) as [[c|n]|] eqn:E; simpl; try assumption.
  destruct (fs (p ++ str ".bak")) as [[c'|n']|]; simpl; try assumption;
    unfold update; now rewrite bak_differs.
Qed.

Lemma after_backup_other (p q : jsstring) (fs : FS) :
  q <> p ++ str ".bak" -> after_backup p fs q = fs q.
Proof.
  intros Hq. apply str_eqb_neq in Hq.
  unfold after_backup, try_ignore, copyFileSync.
  destruct (fs p) as [[c|n]|]; simpl; try reflexivity.
  destruct (fs (p ++ str ".bak")) as [[c'|n']|]; simpl; try reflexivity;
    unfold update; now rewrite Hq.
Qed.

(* ================================================================== *)
(** ** Line-replace, step by step *)

Section LineReplace.

Variables cwd dirname : jsstring.
Variable fs : FS.
Variable a : LineReplaceArgs.
Variables (abs raw : jsstring) (f l : Z).

Let rel := normalizeWorkspaceRel (file_path a).
Let lines := split_lines raw.
Let len := Z.of_nat (length lines).
Let start := Z.max 1 f.
Let end_ := Z.max start l.
Let searchNorm := normalize_crlf (search a).
Let replaceLines := split_char LF (normalize_crlf (replace a)).
Let newLines :=
  firstn (Z.to_nat (start - 1)) lines ++ replaceLines
    ++ skipn (Z.to_nat end_) lines.

Hypothesis Hpath : safeJoin cwd (WORKSPACE cwd dirname) [rel] = Val abs.
Hypothesis Hallowed : isForbiddenPath cwd dirname abs = None.
Hypothesis Hfile : fs abs = Some (File raw).
Hypothesis Hfirst : first_replaced_line a = Num f.
Hypothesis Hlast : last_replaced_line a = Num l.
Hypothesis Hstart : (start <= len)%Z.

(** On a file that exists, at a start line within it, the handler's reply is
    decided by the check of the template, and the file is written exactly
    when the check passes. *)
Lemma lov_line_replace_run :
  lov_line_replace cwd dirname a fs =
  match check_search (target_block lines start (Z.min end_ len)) searchNorm with
  | Some note => (StatusError rel note, fs)
  | None =>
      (StatusOkRange rel start (start - 1 + Z.of_nat (length replaceLines)),
       update (after_backup abs fs) abs
         (Some (File (utf8_text false (join [LF] newLines)))))
  end.
Proof.
  unfold lov_line_replace, try_catch, bind, lift, existsSync, readFileSync.
  fold rel. rewrite Hpath, Hallowed, Hfirst, Hlast. cbn [Math_max].
  cbv beta iota. rewrite Hfile. cbv beta iota. cbn [negb]. cbv beta iota.
  rewrite Hfile. cbv beta iota.
  fold start. fold end_. fold lines. fold len.
  destruct (Z.gtb_spec start len) as [Hgt|_]; [lia|].
  assert (Hs : (1 <= start)%Z) by (unfold start; lia).
  assert (He : (start <= end_)%Z) by (unfold end_; lia).
  rewrite !slice_nonneg, slice_from_nonneg by lia.
  replace (Z.min end_ len - (start - 1))%Z
    with (Z.min end_ len - start + 1)%Z by lia.
  fold (target_block lines start (Z.min end_ len)). fold searchNorm.
  destruct (check_search _ searchNorm) as [note|]; [reflexivity|].
  rewrite try_ignore_val. fold (after_backup abs fs).
  unfold writeFileSync. rewrite after_backup_same, Hfile.
  cbv beta iota delta [ret]. rewrite Z.sub_0_r. reflexivity.
Qed.

End LineReplace.

(* ================================================================== *)
(** ** Occurrences of a literal *)


Lemma includes_nil (t : jsstring) : includes [] t = startsWith [] t.
Proof. unfold includes. cbn [indexOf]. now destruct (startsWith [] t). Qed.

Lemma indexOf_Some (s t : jsstring) (i : nat) :
  indexOf s t = Some i ->
  s = firstn i s ++ t ++ skipn (i + length t) s.
Proof.
  intros H. rewrite indexOf_occurrences in H.
  assert (Hin : In i (occurrences s t))
    by (destruct (occurrences s t); [discriminate|injection H as ->; now left]).
  apply occurrences_spec in Hin as (p & q & -> & <-).
  rewrite firstn_app, Nat.sub_diag, firstn_all, firstn_O, app_nil_r.
  rewrite <- length_app, app_assoc, skipn_app, skipn_all, Nat.sub_diag.
  now rewrite <- app_assoc.
Qed.


Lemma occurs_indexOf (s t p q : jsstring) :
  s = p ++ t ++ q -> exists i, indexOf s t = Some i.
Proof.
  intros E. rewrite indexOf_occurrences.
  assert (Hin : In (length p) (occurrences s t))
    by (apply occurrences_spec; now exists p, q).
  destruct (occurrences s t) as [|i ?]; [destruct Hin|]. now exists i.
Qed.

Lemma occurs_includes (s t p q : jsstring) :
  s = p ++ t ++ q -> includes s t = true.
Proof.
  intros E. unfold includes. now destruct (occurs_indexOf _ _ _ E) as [i ->].
Qed.

Lemma single_occurrence (s t : jsstring) (i : nat) :
  occurrences s t = [i] ->
  indexOf s t = Some i /\
  forall p q, s = p ++ t ++ q -> p = firstn i s /\ q = skipn (i + length t) s.
Proof.
  intros H. split; [now rewrite indexOf_occurrences, H|].
  intros p q E.
  assert (Hin : In (length p) (occurrences s t))
    by (apply occurrences_spec; now exists p, q).
  rewrite H in Hin. destruct Hin as [Hi|[]]. clear H. subst i s.
  rewrite firstn_app, Nat.sub_diag, firstn_all, firstn_O, app_nil_r.
  rewrite <- length_app, app_assoc, skipn_app, skipn_all, Nat.sub_diag.
  now split.
Qed.



Lemma normalize_crlf_other (x : char) (s : jsstring) :
  x <> CR -> normalize_crlf (x :: s) = x :: normalize_crlf s.
Proof. intros H. cbn [normalize_crlf]. now destruct (N.eqb_spec x CR). Qed.

Lemma normalize_crlf_pair (s : jsstring) :
  normalize_crlf (CR :: LF :: s) = LF :: normalize_crlf s.
Proof. reflexivity. Qed.

Lemma normalize_crlf_lone (z : char) (s : jsstring) :
  z <> LF -> normalize_crlf (CR :: z :: s) = CR :: normalize_crlf (z :: s).
Proof.
  intros H. change (normalize_crlf (CR :: z :: s))
    with (if N.eqb z LF then LF :: normalize_crlf s
          else CR :: normalize_crlf (z :: s)).
  now destruct (N.eqb_spec z LF).
Qed.


(* ================================================================== *)
(** ** The check of the search template *)

Lemma check_search_plain (block searchNorm : jsstring) :
  includes searchNorm (str "...") = false ->
  check_search block searchNorm =
  if str_eqb block searchNorm then None else Some note_mismatch.
Proof.
  intros H. unfold check_search. rewrite H.
  now destruct (str_eqb block searchNorm).
Qed.

Lemma marker_includes_dots (searchNorm : jsstring) (idx : nat) :
  indexOf searchNorm ellipsisToken = Some idx ->
  includes searchNorm (str "...") = true.
Proof.
  intros H. apply indexOf_Some in H.
  apply occurs_includes
    with (p := firstn idx searchNorm ++ [LF])
         (q := LF :: skipn (idx + length ellipsisToken) searchNorm).
  rewrite H at 1. now rewrite <- app_assoc.
Qed.

Lemma check_search_marker (block searchNorm : jsstring) (idx : nat) :
  indexOf searchNorm ellipsisToken = Some idx ->
  check_search block searchNorm =
  if startsWith block (firstn idx searchNorm)
     && endsWith block (skipn (idx + length ellipsisToken) searchNorm)
  then None else Some note_prefix_suffix.
Proof.
  intros H. unfold check_search.
  rewrite (marker_includes_dots _ H), H.
  rewrite slice_nonneg, slice_from_nonneg by lia.
  rewrite Z.sub_0_r, Nat2Z.id. cbn [Z.to_nat skipn].
  rewrite <- Nat2Z.inj_add, Nat2Z.id.
  now destruct (startsWith block _), (endsWith block _).
Qed.


(* ================================================================== *)
(** ** Line-replace on a valid line range *)

Section ValidRange.

Variables cwd dirname : jsstring.
Variable fs : FS.
Variable a : LineReplaceArgs.
Variables (abs raw : jsstring) (f l : Z).

Let rel := normalizeWorkspaceRel (file_path a).
Let lines := split_lines raw.
Let searchNorm := normalize_crlf (search a).
Let block := target_block lines f l.
Let replaceLines := split_char LF (normalize_crlf (replace a)).

Hypothesis Hpath : safeJoin cwd (WORKSPACE cwd dirname) [rel] = Val abs.
Hypothesis Hallowed : isForbiddenPath cwd dirname abs = None.
Hypothesis Hfile : fs abs = Some (File raw).
Hypothesis Hfirst : first_replaced_line a = Num f.
Hypothesis Hlast : last_replaced_line a = Num l.
Hypothesis Hrange : (1 <= f <= l)%Z /\ (l <= Z.of_nat (length lines))%Z.

Lemma lov_line_replace_valid :
  lov_line_replace cwd dirname a fs =
  match check_search block searchNorm with
  | Some note => (StatusError rel note, fs)
  | None =>
      (StatusOkRange rel f (f - 1 + Z.of_nat (length replaceLines)),
       update (after_backup abs fs) abs
         (Some (File (utf8_text false
                        (join [LF]
                           (firstn (Z.to_nat (f - 1)) lines ++ replaceLines
                              ++ skipn (Z.to_nat l) lines))))))
  end.
Proof.
  destruct Hrange as [[H1 H2] H3].
  rewrite (lov_line_replace_run cwd dirname fs a Hpath Hallowed Hfile Hfirst Hlast)
    by (fold lines; lia).
  fold lines.
  now rewrite (Z.max_r 1 f), (Z.max_r f l), (Z.min_l l) by lia.
Qed.


(** With exactly one ellipsis marker between two lines of the normalized
    template (one occurrence of LF, three dots, LF, at offset
    [idx]), the template is accepted exactly when the addressed block starts
    with the text before the marker and ends with the text after it; the
    middle is not looked at, and may be empty. *)
Theorem line_replace_ellipsis_match (idx : nat) :
  occurrences searchNorm ellipsisToken = [idx] ->
  let prefix := firstn idx searchNorm in
  let suffix := skipn (idx + length ellipsisToken) searchNorm in
  let r := fst (lov_line_replace cwd dirname a fs) in
  searchNorm = prefix ++ ellipsisToken ++ suffix
  /\ (is_ok r <->
      (exists rest, block = prefix ++ rest) /\ (exists front, block = front ++ suffix))
  /\ (forall middle, block = prefix ++ middle ++ suffix -> is_ok r)
  /\ (block = prefix ++ suffix -> is_ok r)
  /\ (block = prefix ++ [LF] ++ suffix -> is_ok r).
Proof.
  intros Hone prefix suffix r.
  destruct (single_occurrence _ _ Hone) as [Hidx _].
  assert (Hiff : is_ok r <->
    (exists rest, block = prefix ++ rest) /\ (exists front, block = front ++ suffix)).
  { subst r. rewrite lov_line_replace_valid, (check_search_marker _ _ Hidx).
    fold prefix suffix. rewrite <- startsWith_spec, <- endsWith_spec.
    destruct (startsWith block prefix), (endsWith block suffix); simpl;
      intuition congruence. }
  split; [apply (indexOf_Some _ _ Hidx)|]. split; [exact Hiff|].
  assert (Hmid : forall middle, block = prefix ++ middle ++ suffix -> is_ok r).
  { intros middle E. apply Hiff. split.
    - now exists (middle ++ suffix).
    - exists (prefix ++ middle). now rewrite <- app_assoc. }
  split; [exact Hmid|]. split; [apply (Hmid [])|apply (Hmid [LF])].
Qed.


End ValidRange.

(* ================================================================== *)
(** ** Lines of a text *)

Lemma Forall_take {A} (P : A -> Prop) (n : nat) (l : list A) :
  Forall P l -> Forall P (firstn n l).
Proof.
  revert l; induction n as [|n IH]; intros [|x l] H; simpl; auto.
  inversion H; subst. constructor; auto.
Qed.

Lemma Forall_drop {A} (P : A -> Prop) (n : nat) (l : list A) :
  Forall P l -> Forall P (skipn n l).
Proof.
  revert l; induction n as [|n IH]; intros [|x l] H; simpl; auto.
  inversion H; subst. auto.
Qed.

Lemma split_lines_nonempty (s : jsstring) : split_lines s <> [].
Proof.
  destruct s as [|x s]; [discriminate|]. cbn [split_lines].
  destruct (N.eqb x LF); [discriminate|].
  destruct (N.eqb x CR); destruct s as [|y s];
    try destruct (N.eqb y LF); try discriminate;
    unfold push_char; now destruct (split_lines _).
Qed.

Lemma split_char_nonempty (c : char) (s : jsstring) : split_char c s <> [].
Proof.
  destruct s as [|x s]; [discriminate|]. cbn [split_char].
  destruct (N.eqb x c); [discriminate|]. now destruct (split_char c s).
Qed.

Lemma split_char_free (c : char) (s : jsstring) :
  Forall (fun l => ~ In c l) (split_char c s).
Proof.
  induction s as [|x s IH]; [repeat constructor; auto|]. cbn [split_char].
  destruct (N.eqb_spec x c) as [->|Hx]; [constructor; auto|].
  destruct (split_char c s) as [|l ls]; [repeat constructor; simpl; intuition|].
  inversion IH; subst. constructor; [|assumption]. simpl. intuition.
Qed.

Lemma push_char_free (x : char) (L : list jsstring) :
  x <> LF -> Forall lf_free L -> Forall lf_free (push_char x L).
Proof.
  intros Hx HL. destruct L as [|l ls]; simpl.
  - repeat constructor. unfold lf_free. simpl. intuition.
  - inversion HL; subst. constructor; [|assumption].
    unfold lf_free in *. simpl. intuition.
Qed.

Lemma split_lines_step (x y : char) (s : jsstring) :
  split_lines (x :: y :: s) =
  if N.eqb x LF then [] :: split_lines (y :: s)
  else if N.eqb x CR && N.eqb y LF then [] :: split_lines s
       else push_char x (split_lines (y :: s)).
Proof.
  change (split_lines (x :: y :: s)) with
    (if N.eqb x LF then [] :: split_lines (y :: s)
     else if N.eqb x CR
          then (if N.eqb y LF then [] :: split_lines s
                else push_char x (split_lines (y :: s)))
          else push_char x (split_lines (y :: s))).
  now destruct (N.eqb x LF), (N.eqb x CR), (N.eqb y LF).
Qed.

Lemma split_lines_last (x : char) :
  split_lines [x] = if N.eqb x LF then [[]; []] else [[x]].
Proof. cbn. now destruct (N.eqb x LF), (N.eqb x CR). Qed.

Lemma split_lines_free (s : jsstring) : Forall lf_free (split_lines s).
Proof.
  enough (H : Forall lf_free (split_lines s)
              /\ forall x, Forall lf_free (split_lines (x :: s))) by apply H.
  induction s as [|y s [IH1 IH2]].
  - split; [repeat constructor; intros []|]. intros x.
    rewrite split_lines_last. destruct (N.eqb_spec x LF).
    + repeat constructor; intros [].
    + repeat constructor. unfold lf_free. simpl. intuition.
  - split; [apply IH2|]. intros x. rewrite split_lines_step.
    destruct (N.eqb_spec x LF); [constructor; [intros []|apply IH2]|].
    destruct (N.eqb x CR && N.eqb y LF);
      [constructor; [intros []|assumption]|].
    now apply push_char_free.
Qed.

Lemma push_char_length (x : char) (L : list jsstring) :
  L <> [] -> length (push_char x L) = length L.
Proof. now destruct L. Qed.

(** A text without LF is one line. *)
Lemma split_lines_one (p : jsstring) :
  lf_free p -> length (split_lines p) = 1%nat.
Proof.
  unfold lf_free. induction p as [|x p IH]; intros Hp; [reflexivity|].
  assert (Hx : x <> LF) by (intros ->; apply Hp; now left).
  assert (Hp' : ~ In LF p) by (intros H; apply Hp; now right).
  destruct p as [|y p].
  - rewrite split_lines_last. now destruct (N.eqb_spec x LF).
  - rewrite split_lines_step. destruct (N.eqb_spec x LF); [contradiction|].
    destruct (N.eqb_spec y LF) as [->|_]; [exfalso; apply Hp'; now left|].
    rewrite andb_false_r.
    rewrite push_char_length by apply split_lines_nonempty. now apply IH.
Qed.

(** A line without LF followed by LF is one line more than what follows. *)
Lemma split_lines_line (p t : jsstring) :
  lf_free p ->
  length (split_lines (p ++ LF :: t)) = S (length (split_lines t)).
Proof.
  unfold lf_free. induction p as [|x p IH]; intros Hp; [reflexivity|].
  assert (Hx : x <> LF) by (intros ->; apply Hp; now left).
  assert (Hp' : ~ In LF p) by (intros H; apply Hp; now right).
  destruct p as [|y p].
  - change ([x] ++ LF :: t) with (x :: LF :: t). rewrite split_lines_step.
    destruct (N.eqb_spec x LF); [contradiction|]. rewrite N.eqb_refl, andb_true_r.
    destruct (N.eqb x CR); [reflexivity|].
    rewrite push_char_length by discriminate. reflexivity.
  - change ((x :: y :: p) ++ LF :: t) with (x :: y :: (p ++ LF :: t)).
    rewrite split_lines_step. destruct (N.eqb_spec x LF); [contradiction|].
    destruct (N.eqb_spec y LF) as [->|_]; [exfalso; apply Hp'; now left|].
    rewrite andb_false_r.
    rewrite push_char_length by apply split_lines_nonempty. now apply IH.
Qed.

(** Writing lines joined with LF and reading them back gives as many
    lines. *)
Lemma split_lines_join_length (ls : list jsstring) :
  ls <> [] -> Forall lf_free ls ->
  length (split_lines (join [LF] ls)) = length ls.
Proof.
  induction ls as [|p ls IH]; intros Hne Hfree; [congruence|].
  inversion Hfree as [|? ? Hp Hls]; subst.
  destruct ls as [|q ls].
  - simpl. now apply split_lines_one.
  - change (join [LF] (p :: q :: ls)) with (p ++ LF :: join [LF] (q :: ls)).
    rewrite split_lines_line by assumption.
    rewrite IH by (assumption || discriminate). reflexivity.
Qed.

(** There is one line more than there are LF in a text. *)
Lemma split_lines_count (s : jsstring) :
  length (split_lines s) = S (length (filter (fun c => N.eqb c LF) s)).
Proof.
  enough (H : length (split_lines s)
              = S (length (filter (fun c => N.eqb c LF) s))
              /\ forall x, length (split_lines (x :: s))
                           = S (length (filter (fun c => N.eqb c LF) (x :: s))))
    by apply H.
  induction s as [|y s [IH1 IH2]].
  - split; [reflexivity|]. intros x. rewrite split_lines_last. cbn [filter].
    now destruct (N.eqb x LF).
  - split; [apply IH2|]. intros x. rewrite split_lines_step.
    cbn [filter]. destruct (N.eqb_spec x LF) as [->|Hx].
    + cbn [length]. now rewrite IH2.
    + destruct (N.eqb_spec x CR) as [->|Hcr]; cbn [andb].
      * destruct (N.eqb_spec y LF) as [->|Hy].
        -- cbn [length]. now rewrite IH1.
        -- rewrite push_char_length by apply split_lines_nonempty.
           rewrite IH2. cbn [filter]. now destruct (N.eqb_spec y LF).
      * rewrite push_char_length by apply split_lines_nonempty.
        now rewrite IH2.
Qed.

Lemma surrogate_not_lf (x : char) :
  is_high x || is_low x = true -> N.eqb x LF = false.
Proof.
  unfold is_high, is_low, LF. intros H. apply N.eqb_neq. intros ->.
  discriminate H.
Qed.

(** Writing a text as UTF-8 neither adds nor removes a line end. *)
Lemma utf8_text_lf (paired : bool) (s : jsstring) :
  filter (fun c => N.eqb c LF) (utf8_text paired s)
  = filter (fun c => N.eqb c LF) s.
Proof.
  revert paired; induction s as [|x s IH]; intros paired; [reflexivity|].
  cbn [utf8_text]. destruct paired; [cbn [filter]; now rewrite IH|].
  destruct (is_high x) eqn:Eh.
  - assert (Hx : N.eqb x LF = false)
      by (apply surrogate_not_lf; now rewrite Eh).
    destruct s as [|y s]; [cbn [filter]; now rewrite Hx|].
    destruct (is_low y); cbn [filter]; rewrite Hx;
      change (N.eqb 65533 LF) with false; cbv iota; apply IH.
  - destruct (is_low x) eqn:El; cbn [filter]; rewrite IH; [|reflexivity].
    assert (Hx : N.eqb x LF = false)
      by (apply surrogate_not_lf; rewrite El; apply orb_true_r).
    now rewrite Hx.
Qed.

Lemma split_lines_utf8_text (s : jsstring) :
  length (split_lines (utf8_text false s)) = length (split_lines s).
Proof. now rewrite !split_lines_count, utf8_text_lf. Qed.

(* ================================================================== *)
(** ** Line-replace on any input *)

Section AnyInput.

Variables cwd dirname : jsstring.
Variable fs : FS.
Variable a : LineReplaceArgs.

Let rel := normalizeWorkspaceRel (file_path a).

(** Either the handler answers with an error before it has read a line, or
    it is in the situation of [lov_line_replace_run]. *)
Lemma lov_line_replace_outcome :
  (exists file note,
      lov_line_replace cwd dirname a fs = (StatusError file note, fs))
  \/ (exists abs raw f l,
        safeJoin cwd (WORKSPACE cwd dirname) [rel] = Val abs
        /\ isForbiddenPath cwd dirname abs = None
        /\ fs abs = Some (File raw)
        /\ first_replaced_line a = Num f
        /\ last_replaced_line a = Num l
        /\ (Z.max 1 f <= Z.of_nat (length (split_lines raw)))%Z).
Proof.
  unfold lov_line_replace, try_catch, bind, lift, existsSync, readFileSync.
  fold rel.
  destruct (safeJoin cwd (WORKSPACE cwd dirname) [rel]) as [abs|msg] eqn:Hp;
    [|early_error].
  destruct (isForbiddenPath cwd dirname abs) as [note|] eqn:Hf; [early_error|].
  destruct (fs abs) as [[raw|n]|] eqn:Hfile; cbn [negb]; cbv beta iota;
    try rewrite Hfile; try early_error.
  destruct (first_replaced_line a) as [|f] eqn:H1; [early_error|].
  destruct (last_replaced_line a) as [|l] eqn:H2; [early_error|].
  cbn [Math_max].
  destruct (Z.gtb_spec (Z.max 1 f) (Z.of_nat (length (split_lines raw))));
    [early_error|].
  right. exists abs, raw, f, l. repeat split; auto.
Qed.

(** C5.  A line-replace that answers with an error has changed nothing: the
    store, and so the target file, is what it was before the call. *)
Theorem line_replace_error_leaves_store :
  is_error (fst (lov_line_replace cwd dirname a fs)) ->
  snd (lov_line_replace cwd dirname a fs) = fs.
Proof.
  destruct lov_line_replace_outcome
    as [(file & note & E)|(abs & raw & f & l & Hp & Hf & Hfile & H1 & H2 & Hs)].
  - now rewrite E.
  - rewrite (lov_line_replace_run cwd dirname fs a Hp Hf Hfile H1 H2 Hs).
    destruct (check_search _ _); simpl; [reflexivity|contradiction].
Qed.

(** C6, as the code has it.  A successful line-replace has replaced lines
    [start..stop] of the [L] lines of the file by the [R] replacement lines,
    where [start] is the first line raised to 1 at least and [stop] is the
    last line raised to [start] at least and lowered to [L] at most: the
    file then has [L + R - (stop - start + 1)] lines and the reply reports
    [start - 1 + R]; for a range within the file these are the given first
    and last lines. *)
Theorem line_replace_line_count :
  is_ok (fst (lov_line_replace cwd dirname a fs)) ->
  exists abs raw f l newContent,
    safeJoin cwd (WORKSPACE cwd dirname) [rel] = Val abs
    /\ fs abs = Some (File raw)
    /\ first_replaced_line a = Num f
    /\ last_replaced_line a = Num l
    /\ let L := Z.of_nat (length (split_lines raw)) in
       let R := Z.of_nat (length (split_char LF (normalize_crlf (replace a)))) in
       let start := Z.max 1 f in
       let stop := Z.min (Z.max start l) L in
       fst (lov_line_replace cwd dirname a fs)
       = StatusOkRange rel start (start - 1 + R)
       /\ snd (lov_line_replace cwd dirname a fs) abs = Some (File newContent)
       /\ Z.of_nat (length (split_lines newContent))
          = (L + R - (stop - start + 1))%Z
       /\ ((1 <= f <= l)%Z /\ (l <= L)%Z ->
           start = f /\ stop = l
           /\ Z.of_nat (length (split_lines newContent))
              = (L + R - (l - f + 1))%Z).
Proof.
  destruct lov_line_replace_outcome
    as [(file & note & E)|(abs & raw & f & l & Hp & Hf & Hfile & H1 & H2 & Hs)].
  - rewrite E. intros [].
  - rewrite (lov_line_replace_run cwd dirname fs a Hp Hf Hfile H1 H2 Hs).
    destruct (check_search _ _); [intros []|]. intros _.
    set (lines := split_lines raw) in *.
    set (replaceLines := split_char LF (normalize_crlf (replace a))).
    set (start := Z.max 1 f) in *. set (end_ := Z.max start l).
    set (newLines := firstn (Z.to_nat (start - 1)) lines ++ replaceLines
                       ++ skipn (Z.to_nat end_) lines).
    exists abs, raw, f, l, (utf8_text false (join [LF] newLines)).
    repeat (split; [assumption|]). cbv zeta. cbn [fst snd].
    split; [reflexivity|]. split; [unfold update; now rewrite str_eqb_refl|].
    assert (Hcount : Z.of_nat (length (split_lines
                                         (utf8_text false (join [LF] newLines))))
                     = (Z.of_nat (length lines) + Z.of_nat (length replaceLines)
                        - (Z.min end_ (Z.of_nat (length lines)) - start + 1))%Z).
    { rewrite split_lines_utf8_text, split_lines_join_length.
      - unfold newLines. rewrite !length_app, length_firstn, length_skipn.
        unfold end_, start, jsstring, char in *. lia.
      - unfold newLines. intros E.
        apply app_eq_nil in E as [_ E]. apply app_eq_nil in E as [E _].
        now apply split_char_nonempty in E.
      - unfold newLines. rewrite !Forall_app. repeat split.
        + apply Forall_take, split_lines_free.
        + apply split_char_free.
        + apply Forall_drop, split_lines_free. }
    split; [exact Hcount|]. intros [[Ha Hb] Hc].
    rewrite Hcount. unfold end_, start, lines in *.
    repeat split; lia.
Qed.

End AnyInput.

(* ================================================================== *)
(** ** Paths *)

Lemma split_char_app (c : char) (a b : jsstring) :
  split_char c (a ++ c :: b) = split_char c a ++ split_char c b.
Proof.
  induction a as [|x a IH]; simpl.
  - now rewrite N.eqb_refl.
  - destruct (N.eqb x c); [now rewrite IH|]. rewrite IH.
    pose proof (split_char_nonempty c a) as Hne.
    now destruct (split_char c a).
Qed.

Lemma split_char_none (c : char) (s : jsstring) :
  ~ In c s -> split_char c s = [s].
Proof.
  induction s as [|x s IH]; intros H; [reflexivity|]. simpl.
  destruct (N.eqb_spec x c) as [->|_]; [exfalso; apply H; now left|].
  rewrite IH; [reflexivity|]. intros Hin. apply H. now right.
Qed.

Lemma join_cons (sep p : jsstring) (ps : list jsstring) :
  join sep (p :: ps) =
  p ++ match ps with [] => [] | _ => sep ++ join sep ps end.
Proof. destruct ps; simpl; [now rewrite app_nil_r|reflexivity]. Qed.

Lemma join_app (sep : jsstring) (xs ys : list jsstring) :
  xs <> [] ->
  join sep (xs ++ ys) =
  join sep xs ++ match ys with [] => [] | _ => sep ++ join sep ys end.
Proof.
  induction xs as [|x xs IH]; intros Hne; [congruence|].
  destruct xs as [|x' xs].
  - simpl app. rewrite join_cons. reflexivity.
  - change ((x :: x' :: xs) ++ ys) with (x :: ((x' :: xs) ++ ys)).
    rewrite (join_cons sep x), IH by discriminate.
    change (join sep (x :: x' :: xs)) with (x ++ sep ++ join sep (x' :: xs)).
    simpl app at 2. now rewrite <- !app_assoc.
Qed.

Lemma split_char_join (c : char) (parts : list jsstring) :
  parts <> [] ->
  split_char c (join [c] parts) = concat (map (split_char c) parts).
Proof.
  induction parts as [|p ps IH]; intros Hne; [congruence|].
  destruct ps as [|q ps].
  - simpl. now rewrite app_nil_r.
  - change (join [c] (p :: q :: ps)) with (p ++ c :: join [c] (q :: ps)).
    rewrite split_char_app, IH by discriminate. reflexivity.
Qed.

Lemma split_char_head (c : char) (s l : jsstring) (ls : list jsstring) :
  split_char c s = l :: ls -> exists v, s = l ++ v.
Proof.
  revert l ls; induction s as [|y s IH]; intros l ls H.
  - injection H as <- _. now exists [].
  - simpl in H. destruct (N.eqb y c).
    + injection H as <- _. now exists (y :: s).
    + destruct (split_char c s) as [|l' ls'] eqn:E; injection H as <- _.
      * now exists s.
      * destruct (IH l' ls' eq_refl) as [v ->]. now exists v.
Qed.

Lemma piece_substring (c : char) (s x : jsstring) :
  In x (split_char c s) -> exists u v, s = u ++ x ++ v.
Proof.
  revert x; induction s as [|y s IH]; intros x H.
  - destruct H as [<-|[]]. now exists [], [].
  - simpl in H. destruct (N.eqb y c).
    + destruct H as [<-|H]; [now exists [], (y :: s)|].
      destruct (IH x H) as (u & v & ->). now exists (y :: u), v.
    + destruct (split_char c s) as [|l ls] eqn:E.
      * now apply split_char_nonempty in E.
      * destruct H as [<-|H].
        -- destruct (split_char_head _ _ E) as [v ->]. now exists [], v.
        -- destruct (IH x (or_intror H)) as (u & v & ->). now exists (y :: u), v.
Qed.

Lemma fold_norm_no_dotdot (allow : bool) (P st : list jsstring) :
  Forall (fun s => s <> str "..") P ->
  fold_left (Path.norm_step allow) P st = rev (filter kept P) ++ st.
Proof.
  revert st; induction P as [|s P IH]; intros st H; [reflexivity|].
  inversion H as [|? ? Hs HP]; subst. cbn [fold_left filter].
  rewrite IH by assumption. unfold Path.norm_step, kept.
  destruct (str_eqb s [] || str_eqb s (str ".")); [reflexivity|].
  apply str_eqb_neq in Hs. rewrite Hs. cbn [negb rev].
  now rewrite <- app_assoc.
Qed.

Lemma fold_norm_plain (P st : list jsstring) :
  Forall (fun s => ~ In SLASH s) P -> Forall plain st ->
  Forall plain (fold_left (Path.norm_step false) P st).
Proof.
  revert st; induction P as [|s P IH]; intros st HP Hst; [assumption|].
  inversion HP as [|? ? Hs HP']; subst. cbn [fold_left]. apply IH; [assumption|].
  unfold Path.norm_step.
  destruct (str_eqb s []) eqn:E1; [assumption|].
  destruct (str_eqb s (str ".")) eqn:E2; [assumption|]. cbn [orb].
  destruct (str_eqb s (str "..")) eqn:E3.
  - destruct st as [|top rest]; [constructor|].
    inversion Hst; subst. now destruct (str_eqb top (str "..")).
  - constructor; [|assumption].
    apply str_eqb_neq in E1, E2, E3. repeat split; assumption.
Qed.

Lemma filter_kept_plain (S : list jsstring) :
  Forall plain S -> filter kept S = S.
Proof.
  induction 1 as [|s S (H1 & H2 & _) _ IH]; [reflexivity|]. simpl.
  unfold kept at 1. apply str_eqb_neq in H1, H2. rewrite H1, H2. simpl.
  now rewrite IH.
Qed.

Lemma filter_kept_empties (E : list jsstring) :
  Forall (eq []) E -> filter kept E = [].
Proof. induction 1 as [|s E <- _ IH]; [reflexivity|]. simpl. exact IH. Qed.

Lemma plain_no_dotdot (S : list jsstring) :
  Forall plain S -> Forall (fun s => s <> str "..") S.
Proof. apply Forall_impl. intros s (_ & _ & H & _). exact H. Qed.

Lemma concat_singletons (S : list jsstring) :
  concat (map (fun s => [s]) S) = S.
Proof. induction S as [|s S IH]; simpl; [reflexivity|now rewrite IH]. Qed.

Lemma split_plain_join (S : list jsstring) :
  S <> [] -> Forall plain S -> split_char SLASH (join Path.sep S) = S.
Proof.
  intros Hne HS. unfold Path.sep. rewrite split_char_join by assumption.
  rewrite <- (concat_singletons S) at 2. f_equal.
  apply map_ext_in. intros s Hs. apply split_char_none.
  rewrite Forall_forall in HS. now destruct (HS s Hs) as (_ & _ & _ & H).
Qed.

(** The segments of a rooted path built from plain segments, with or without
    a trailing separator. *)
Lemma normalize_rooted (S : list jsstring) (tail : jsstring) :
  Forall plain S -> tail = [] \/ tail = Path.sep ->
  Path.normalizeSegments false
    (split_char SLASH (Path.sep ++ join Path.sep S ++ tail)) = S.
Proof.
  intros HS Htail.
  assert (Hsplit : exists E, Forall (eq []) E /\
            split_char SLASH (join Path.sep S ++ tail) = S ++ E).
  { destruct S as [|s S'] eqn:ES.
    - destruct Htail as [-> | ->].
      + exists [[]]. split; [repeat constructor|reflexivity].
      + exists [[]; []]. split; [repeat constructor|reflexivity].
    - rewrite <- ES in *. assert (Hne : S <> []) by (subst; discriminate).
      destruct Htail as [-> | ->].
      + exists []. split; [constructor|].
        now rewrite !app_nil_r, split_plain_join.
      + exists [[]]. split; [repeat constructor|].
        unfold Path.sep at 2. rewrite split_char_app, split_plain_join by assumption.
        reflexivity. }
  destruct Hsplit as (E & HE & Hsplit).
  change (Path.sep ++ join Path.sep S ++ tail)
    with ([] ++ SLASH :: (join Path.sep S ++ tail)).
  rewrite split_char_app, Hsplit. unfold Path.normalizeSegments.
  rewrite fold_norm_no_dotdot.
  - rewrite app_nil_r, rev_involutive. cbn [split_char app filter kept].
    cbn. rewrite filter_app, filter_kept_plain, filter_kept_empties by assumption.
    apply app_nil_r.
  - cbn [split_char app]. constructor; [discriminate|].
    apply Forall_app. split; [now apply plain_no_dotdot|].
    revert HE. apply Forall_impl. intros s <-. discriminate.
Qed.

Lemma resolve_absolute (cwd p : jsstring) :
  Path.isAbsolute p = true ->
  Path.resolve cwd p =
  Path.sep ++ join Path.sep (Path.normalizeSegments false (split_char SLASH p)).
Proof.
  intros H. unfold Path.resolve, Path.normalizeString.
  rewrite H. cbv beta iota zeta. now rewrite H.
Qed.

Lemma normalize_absolute (p : jsstring) :
  Path.isAbsolute p = true ->
  Path.normalize p =
  match join Path.sep (Path.normalizeSegments false (split_char SLASH p)) with
  | [] => Path.sep
  | q => Path.sep ++ (if Path.ends_with_sep p then q ++ Path.sep else q)
  end.
Proof.
  intros H. destruct p as [|x p]; [discriminate|].
  unfold Path.normalize, Path.normalizeString. cbv beta iota zeta.
  rewrite H. cbn [negb]. now destruct (join Path.sep _).
Qed.

Lemma normalize_absolute_nonempty (p : jsstring) :
  Path.isAbsolute p = true ->
  join Path.sep (Path.normalizeSegments false (split_char SLASH p)) <> [] ->
  Path.normalize p =
  Path.sep ++ join Path.sep (Path.normalizeSegments false (split_char SLASH p))
    ++ (if Path.ends_with_sep p then Path.sep else []).
Proof.
  intros H Hne. rewrite normalize_absolute by assumption.
  destruct (join Path.sep _) as [|q0 q]; [congruence|].
  destruct (Path.ends_with_sep p); [reflexivity|now rewrite app_nil_r].
Qed.

Lemma normalizeSegments_plain (P : list jsstring) :
  Forall (fun s => ~ In SLASH s) P ->
  Forall plain (Path.normalizeSegments false P).
Proof.
  intros H. unfold Path.normalizeSegments. apply Forall_rev.
  apply fold_norm_plain; [assumption|constructor].
Qed.

Lemma segments_rooted (S : list jsstring) :
  Forall plain S -> Path.segments (Path.sep ++ join Path.sep S) = S.
Proof.
  intros HS. unfold Path.segments.
  change (Path.sep ++ join Path.sep S) with ([] ++ SLASH :: join Path.sep S).
  rewrite split_char_app. cbn [split_char app filter str_eqb negb].
  destruct S as [|s S'] eqn:E; [reflexivity|]. rewrite <- E in *.
  rewrite split_plain_join by (assumption || (subst; discriminate)).
  clear E. induction HS as [|x S (Hx & _) _ IH]; [reflexivity|].
  simpl. apply str_eqb_neq in Hx. now rewrite Hx, IH.
Qed.

Lemma join_plain_nonempty (S : list jsstring) :
  S <> [] -> Forall plain S -> join Path.sep S <> [].
Proof.
  intros Hne HS. destruct S as [|s S]; [congruence|].
  inversion HS as [|? ? (Hs & _) _]; subst. rewrite join_cons.
  destruct s; [congruence|discriminate].
Qed.

Section PathGuard.

Variable cwd : jsstring.
Variable base : jsstring.
Variable segs : list jsstring.

Let root := Path.normalizeSegments false (split_char SLASH base).

Hypothesis Habsolute : Path.isAbsolute base = true.
Hypothesis Hroot : root <> [].
Hypothesis Hsegs : Forall (fun seg => includes seg (str "..") = false) segs.

(** What [safeJoin] returns on arguments free of [..]: the root's segments
    followed by the plain segments of the arguments. *)
Lemma safeJoin_inside :
  exists (below : list jsstring) (tail : jsstring),
    Forall plain (root ++ below)
    /\ safeJoin cwd base segs
       = Val (Path.sep ++ join Path.sep (root ++ below) ++ tail)
    /\ Path.resolve cwd (Path.sep ++ join Path.sep (root ++ below) ++ tail)
       = Path.sep ++ join Path.sep (root ++ below)
    /\ Path.resolve cwd base = Path.sep ++ join Path.sep root.
Proof.
  set (args := filter (fun a => negb (str_eqb a [])) segs).
  set (P := concat (map (split_char SLASH) args)).
  set (raw := join Path.sep (base :: args)).
  assert (Hbase : exists b, base = SLASH :: b).
  { destruct base as [|x b]; [discriminate|]. simpl in Habsolute.
    apply N.eqb_eq in Habsolute. subst x. now exists b. }
  destruct Hbase as [b Hb].
  assert (Hraw : exists r, raw = SLASH :: r).
  { unfold raw. rewrite join_cons, Hb. eexists. reflexivity. }
  destruct Hraw as [r Hr].
  assert (HP : Forall (fun s => s <> str "..") P).
  { apply Forall_forall. intros x Hx. unfold P in Hx.
    apply in_concat in Hx as (pieces & Hpieces & Hx).
    apply in_map_iff in Hpieces as (seg & <- & Hseg).
    apply filter_In in Hseg as [Hseg _].
    rewrite Forall_forall in Hsegs. specialize (Hsegs _ Hseg).
    intros ->. apply piece_substring in Hx as (u & v & E).
    now rewrite (occurs_includes _ _ _ E) in Hsegs. }
  assert (HPfree : Forall (fun s => ~ In SLASH s) P).
  { apply Forall_forall. intros x Hx. unfold P in Hx.
    apply in_concat in Hx as (pieces & Hpieces & Hx).
    apply in_map_iff in Hpieces as (seg & <- & _).
    pose proof (split_char_free SLASH seg) as Hfree.
    rewrite Forall_forall in Hfree. now apply Hfree. }
  assert (Hnorm : Path.normalizeSegments false (split_char SLASH raw)
                  = root ++ filter kept P).
  { unfold raw, Path.sep. rewrite split_char_join by discriminate.
    cbn [map concat]. fold P. unfold Path.normalizeSegments.
    rewrite fold_left_app, fold_norm_no_dotdot by assumption.
    rewrite rev_app_distr, rev_involutive. reflexivity. }
  assert (Hplain : Forall plain (root ++ filter kept P)).
  { rewrite <- Hnorm. apply normalizeSegments_plain, split_char_free. }
  set (below := filter kept P) in *.
  set (tail := if Path.ends_with_sep raw then Path.sep else []).
  assert (Htail : tail = [] \/ tail = Path.sep)
    by (unfold tail; destruct (Path.ends_with_sep raw); auto).
  set (joined := Path.sep ++ join Path.sep (root ++ below) ++ tail).
  assert (Hjoin : Path.join_paths (base :: segs) = joined).
  { assert (Hfilter : filter (fun a => negb (str_eqb a [])) (base :: segs)
                      = base :: args)
      by (cbn [filter]; rewrite Hb; reflexivity).
    unfold Path.join_paths. rewrite Hfilter. fold raw.
    rewrite normalize_absolute by (rewrite Hr; reflexivity). rewrite Hnorm.
    pose proof (@join_plain_nonempty (root ++ below)) as Hne.
    unfold joined, tail.
    destruct (join Path.sep (root ++ below)) as [|q0 q] eqn:Eq.
    - exfalso. apply Hne; [|assumption|reflexivity].
      intros E. apply app_eq_nil in E as [E _]. contradiction.
    - destruct (Path.ends_with_sep raw); [reflexivity|now rewrite app_nil_r]. }
  assert (Hres : Path.resolve cwd joined = Path.sep ++ join Path.sep (root ++ below)).
  { rewrite resolve_absolute by reflexivity. unfold joined.
    now rewrite normalize_rooted. }
  assert (Hresbase : Path.resolve cwd base = Path.sep ++ join Path.sep root)
    by (now rewrite resolve_absolute).
  exists below, tail. split; [assumption|]. split; [|split; assumption].
  unfold safeJoin.
  assert (Hnone : existsb (fun seg => includes seg (str "..")) segs = false).
  { apply not_true_is_false. intros H. apply existsb_exists in H as (x & Hx & H).
    rewrite Forall_forall in Hsegs. now rewrite (Hsegs _ Hx) in H. }
  assert (Hinside : isPathInside cwd joined base = true).
  { unfold isPathInside. rewrite Hres, Hresbase.
    rewrite join_app by assumption. apply startsWith_spec.
    exists (match below with
            | [] => []
            | _ :: _ => join Path.sep below ++ Path.sep
            end).
    destruct below; rewrite <- ?app_assoc; [now rewrite !app_nil_r|].
    reflexivity. }
  now rewrite Hnone, Hjoin, Hinside.
Qed.

End PathGuard.

Lemma split_char_head_app (c : char) (t b : jsstring) :
  ~ In c t -> exists l ls, split_char c (t ++ b) = (t ++ l) :: ls.
Proof.
  induction t as [|y t IH]; intros Ht.
  - pose proof (split_char_nonempty c b) as Hne. simpl.
    destruct (split_char c b) as [|l ls]; [congruence|]. now exists l, ls.
  - assert (Hy : y <> c) by (intros ->; apply Ht; now left).
    destruct IH as (l & ls & E); [intros H; apply Ht; now right|].
    simpl. destruct (N.eqb_spec y c); [contradiction|]. rewrite E.
    now exists l, ls.
Qed.

(** An occurrence of a separator-free literal lies within one piece. *)
Lemma occurs_in_piece (c : char) (a t b : jsstring) :
  ~ In c t ->
  exists x u v, In x (split_char c (a ++ t ++ b)) /\ x = u ++ t ++ v.
Proof.
  intros Ht. induction a as [|y a (x & u & v & Hin & Hx)].
  - destruct (@split_char_head_app c t b Ht) as (l & ls & E).
    exists (t ++ l), [], l. simpl app. rewrite E. split; [now left|reflexivity].
  - change ((y :: a) ++ t ++ b) with (y :: (a ++ t ++ b)). cbn [split_char].
    destruct (N.eqb y c).
    + exists x, u, v. split; [now right|assumption].
    + destruct (split_char c (a ++ t ++ b)) as [|l ls]; [destruct Hin|].
      destruct Hin as [<-|Hin].
      * exists (y :: l), (y :: u), v. split; [now left|]. now rewrite Hx.
      * exists x, u, v. split; [now right|assumption].
Qed.

Lemma includes_occurs (s t : jsstring) :
  includes s t = true -> exists p q, s = p ++ t ++ q.
Proof.
  unfold includes. destruct (indexOf s t) as [i|] eqn:E; [|discriminate].
  intros _. apply indexOf_Some in E. eauto.
Qed.

Lemma dotdot_free_pieces (p : jsstring) :
  Forall (fun seg => includes seg (str "..") = false) (split_char SLASH p) <->
  includes p (str "..") = false.
Proof.
  split.
  - intros H. apply not_true_is_false. intros Hp.
    apply includes_occurs in Hp as (a & b & ->).
    destruct (@occurs_in_piece SLASH a (str "..") b) as (x & u & v & Hin & Hx).
    + simpl. unfold SLASH. intuition discriminate.
    + rewrite Forall_forall in H. specialize (H x Hin).
      now rewrite (occurs_includes _ _ _ Hx) in H.
  - intros H. apply Forall_forall. intros x Hx. apply not_true_is_false.
    intros Hi. apply includes_occurs in Hi as (u & v & ->).
    apply piece_substring in Hx as (u' & v' & E).
    rewrite (@occurs_includes p (str "..") (u' ++ u) (v ++ v')) in H;
      [discriminate|]. rewrite E. now rewrite <- !app_assoc.
Qed.

(** C2.  Under a root that is an absolute path other than the root of the
    file system, [safeJoin] returns, for a relative path none of whose
    segments contains two dots in a row, a path that lies within the root,
    and throws the traversal error for a path with a segment that contains
    them. *)
Theorem safeJoin_contains_or_blocks (cwd base p : jsstring) :
  Path.isAbsolute base = true ->
  Path.segments (Path.resolve cwd base) <> [] ->
  (Forall (fun seg => includes seg (str "..") = false) (split_char SLASH p) ->
   exists abs,
     safeJoin cwd base [p] = Val abs
     /\ isPathInside cwd abs base = true
     /\ is_descendant cwd abs base)
  /\ (Exists (fun seg => includes seg (str "..") = true) (split_char SLASH p) ->
      safeJoin cwd base [p] = Throw note_traversal).
Proof.
  intros Habs Hroot. split.
  - intros Hfree. apply dotdot_free_pieces in Hfree.
    assert (Hplain : Forall plain
              (Path.normalizeSegments false (split_char SLASH base)))
      by apply normalizeSegments_plain, split_char_free.
    assert (Hne : Path.normalizeSegments false (split_char SLASH base) <> []).
    { intros E. apply Hroot. rewrite resolve_absolute, E by assumption.
      reflexivity. }
    destruct (@safeJoin_inside cwd base [p] Habs Hne)
      as (below & tail & Hall & Hjoin & Hres & Hbase).
    { constructor; [assumption|constructor]. }
    eexists. split; [exact Hjoin|]. split.
    + unfold safeJoin in Hjoin.
      destruct (existsb _ _); [discriminate|].
      destruct (isPathInside cwd (Path.join_paths [base; p]) base) eqn:E;
        [|discriminate].
      cbn [negb] in Hjoin. injection Hjoin as Hj. rewrite Hj in E. exact E.
    + unfold is_descendant. exists below. rewrite Hres, Hbase.
      rewrite !segments_rooted; [reflexivity|assumption|assumption].
  - intros Hex. apply Exists_exists in Hex as (x & Hx & Hi).
    apply includes_occurs in Hi as (u & v & ->).
    apply piece_substring in Hx as (u' & v' & E).
    unfold safeJoin. cbn [existsb].
    rewrite (@occurs_includes p (str "..") (u' ++ u) (v ++ v'));
      [reflexivity|]. rewrite E. now rewrite <- !app_assoc.
Qed.

(* ================================================================== *)
(** ** Whole-file write *)

(** The loop with its early exit crosses the ceiling exactly when the full
    position-wise count does. *)
Lemma changed_loop_crosses (prevLines newLines : list jsstring) (n i changed : nat) :
  (changed <= 400)%nat ->
  (400 <? changed_loop prevLines newLines n i changed)%nat
  = (400 <? changed
            + length (filter (differs prevLines newLines) (seq i n)))%nat.
Proof.
  revert i changed; induction n as [|n IH]; intros i changed Hle.
  - simpl. now rewrite Nat.add_0_r.
  - cbn [changed_loop seq filter]. unfold differs at 1.
    destruct (str_eqb (nth i prevLines []) (nth i newLines [])); cbn [negb].
    + destruct (Nat.ltb_spec 400 changed) as [Hgt|_]; [lia|].
      now apply IH.
    + destruct (Nat.ltb_spec 400 (S changed)) as [Hgt|Hle'].
      * transitivity true; [apply Nat.ltb_lt; exact Hgt|].
        symmetry. apply Nat.ltb_lt. cbn [length]. lia.
      * rewrite IH by lia. cbn [length]. f_equal. lia.
Qed.

Lemma changed_loop_diff_count (prevLines newLines : list jsstring) :
  (400 <? changed_loop prevLines newLines
            (Nat.max (length prevLines) (length newLines)) 0 0)%nat
  = (400 <? diff_count prevLines newLines)%nat.
Proof. now rewrite changed_loop_crosses by lia. Qed.

Section Write.

Variables cwd dirname : jsstring.
Variable fs : FS.
Variable a : WriteArgs.

Let rel := normalizeWorkspaceRel (write_file_path a).

(** C8.  Whole-file write answers with a size-limit error, and leaves the
    store as it was, when the content is larger than 200 KiB, and, for a
    permitted target that exists, when more than 400 line positions differ
    between the old and the new content. *)
Theorem write_refuses_over_limits :
  ((200 * 1024 < byteLength (content a))%N ->
   lov_write cwd dirname a fs = (StatusError rel note_too_large, fs))
  /\ (forall abs prev,
        (byteLength (content a) <= 200 * 1024)%N ->
        safeJoin cwd (WORKSPACE cwd dirname) [rel] = Val abs ->
        isForbiddenPath cwd dirname abs = None ->
        fs abs = Some (File prev) ->
        (400 < diff_count (split_lines prev)
                 (split_char LF (normalize_crlf (content a))))%nat ->
        lov_write cwd dirname a fs = (StatusError rel note_too_many_changes, fs)).
Proof.
  split.
  - intros Hbig. apply N.ltb_lt in Hbig.
    unfold lov_write, try_catch. fold rel. now rewrite Hbig.
  - intros abs prev Hsmall Hpath Hallowed Hfile Hdiff.
    apply N.ltb_ge in Hsmall. apply Nat.ltb_lt in Hdiff.
    unfold lov_write, try_catch, bind, lift, existsSync, readFileSync.
    fold rel. rewrite Hsmall, Hpath, Hallowed. cbv beta iota.
    rewrite Hfile. cbv beta iota. rewrite Hfile. cbv beta iota.
    now rewrite changed_loop_diff_count, Hdiff.
Qed.

End Write.

(* ================================================================== *)
(** ** Delete *)

Section Delete.

Variables cwd dirname : jsstring.
Variable fs : FS.
Variable a : DeleteArgs.

Let rel := normalizeWorkspaceRel (delete_file_path a).

Lemma lov_delete_flagged_inert (enabled : bool) :
  snd (lov_delete_flagged cwd dirname enabled a fs) = fs.
Proof.
  unfold lov_delete_flagged, try_catch, bind, lift, existsSync, statSync_size.
  destruct enabled; [|reflexivity]. cbn [negb].
  destruct (safeJoin _ _ _) as [abs|msg]; [|reflexivity].
  destruct (isForbiddenPath _ _ _); [reflexivity|]. cbv beta iota.
  destruct (fs abs) as [[c|n]|] eqn:E; cbn [negb]; cbv beta iota;
    rewrite ?E; cbv beta iota; try reflexivity;
    now destruct (delete_confirm a).
Qed.

(** C9, as the code has it.  The delete handler is behind a feature flag
    that is off: every delete, confirmed or not, is answered with
    [not_enabled] and leaves the store as it was.  Whatever the flag, delete
    never changes the store; with the flag on, an unconfirmed delete of a
    permitted file that exists asks for confirmation and reports the file's
    size in bytes. *)
Theorem delete_is_disabled_and_inert :
  lov_delete cwd dirname a fs = (StatusNotEnabled (str "lov-delete"), fs)
  /\ (forall enabled, snd (lov_delete_flagged cwd dirname enabled a fs) = fs)
  /\ (forall abs text,
        safeJoin cwd (WORKSPACE cwd dirname) [rel] = Val abs ->
        isForbiddenPath cwd dirname abs = None ->
        fs abs = Some (File text) ->
        delete_confirm a = false ->
        lov_delete_flagged cwd dirname true a fs
        = (StatusConfirmRequired rel (byteLength text), fs)).
Proof.
  split; [reflexivity|]. split; [apply lov_delete_flagged_inert|].
  intros abs text Hpath Hallowed Hfile Hconfirm.
  unfold lov_delete_flagged, try_catch, bind, lift, existsSync, statSync_size.
  fold rel. cbn [negb]. rewrite Hpath, Hallowed. cbv beta iota.
  rewrite Hfile. cbn [negb]. cbv beta iota. rewrite Hfile. cbv beta iota.
  now rewrite Hconfirm.
Qed.

End Delete.

(* ================================================================== *)
(** ** View *)


Section View.

Variables cwd dirname : jsstring.
Variable fs : FS.
Variables (path abs raw reason : jsstring).

Let rel := normalizeWorkspaceRel path.

Hypothesis Hpath : safeJoin cwd (WORKSPACE cwd dirname) [rel] = Val abs.
Hypothesis Hforbidden : isForbiddenPath cwd dirname abs = Some reason.
Hypothesis Hfile : fs abs = Some (File raw).


Lemma lov_view_default :
  lov_view cwd dirname {| view_file_path := path; view_lines := None |} fs
  = (Text (default_view raw), fs).
Proof.
  unfold lov_view, try_catch, bind, lift, existsSync, readFileSync.
  cbn [view_file_path view_lines]. fold rel. rewrite Hpath. cbv beta iota.
  rewrite Hfile. cbn [negb]. cbv beta iota. rewrite Hfile. reflexivity.
Qed.

Lemma lov_view_ranges (lines : jsstring) (ranges : list (Z * Z)) :
  trim lines <> [] ->
  parseLineRanges lines = Val ranges ->
  lov_view cwd dirname {| view_file_path := path; view_lines := Some lines |} fs
  = (Text (let output :=
             join [LF]
               (map (fun '(start, end_) =>
                       join [LF] (slice (split_lines raw) (start - 1) end_))
                  ranges) in
           if (20000 <? Z.of_nat (length output))%Z then slice output 0 20000
           else output), fs).
Proof.
  intros Htrim Hparse.
  unfold lov_view, try_catch, bind, lift, existsSync, readFileSync.
  cbn [view_file_path view_lines]. fold rel. rewrite Hpath. cbv beta iota.
  rewrite Hfile. cbn [negb]. cbv beta iota. rewrite Hfile. cbv beta iota.
  destruct (trim lines) as [|t ts]; [congruence|]. cbv beta iota.
  rewrite Hparse. reflexivity.
Qed.





End View.


(* ================================================================== *)
(** ** The glob compiler *)

(** C7, at the inputs where the code departs from it.  Each replacement of
    [globToRegExp] runs over the output of the ones before it: the star of
    the expression written for a double star is rewritten as a single star
    of the glob, and every question mark, those of the group written for a
    double star and a slash included, becomes a dot.  So [src/**] does not
    match a path two levels below [src], [**/a.ts] matches neither [a.ts]
    nor [lib/a.ts], and the question mark of [a?c] matches a slash. *)
Theorem globToRegExp_rewrites_its_own_output :
  globToRegExp_source (str "src/**") = str "^src/.[^/]*$"
  /\ option_map (fun r => Regex.test r (str "src/a/b.ts"))
       (globToRegExp (str "src/**")) = Some false
  /\ globToRegExp_source (str "**/a.ts") = str "^(.:.[^/]*./).a\.ts$"
  /\ option_map (fun r => Regex.test r (str "a.ts"))
       (globToRegExp (str "**/a.ts")) = Some false
  /\ option_map (fun r => Regex.test r (str "lib/a.ts"))
       (globToRegExp (str "**/a.ts")) = Some false
  /\ globToRegExp_source (str "a?c") = str "^a.c$"
  /\ option_map (fun r => Regex.test r (str "a/c"))
       (globToRegExp (str "a?c")) = Some true.
Proof. repeat split; vm_compute; reflexivity. Qed.

(* ================================================================== *)
(** ** The workspace root *)

Lemma plain_workspace : plain (str "workspace").
Proof.
  repeat split; try discriminate. simpl. unfold SLASH.
  intuition discriminate.
Qed.

(** The workspace root is a rooted path of plain segments, the last of
    which is [workspace]: an absolute path other than the root of the file
    system. *)
Lemma WORKSPACE_rooted (cwd dirname : jsstring) :
  Path.isAbsolute dirname = true ->
  exists S,
    Forall plain (S ++ [str "workspace"])
    /\ WORKSPACE cwd dirname
       = Path.sep ++ join Path.sep (S ++ [str "workspace"]).
Proof.
  intros Habs.
  assert (Hd : exists d, dirname = SLASH :: d).
  { destruct dirname as [|x d]; [discriminate|]. simpl in Habs.
    apply N.eqb_eq in Habs. subst x. now exists d. }
  destruct Hd as [d Hd].
  set (raw := join Path.sep [dirname; str ".."; str "workspace"]).
  assert (Hraw : Path.isAbsolute raw = true).
  { unfold raw. rewrite join_cons, Hd. reflexivity. }
  set (st := fold_left (Path.norm_step false) (split_char SLASH dirname) []).
  assert (Hst : Forall plain st)
    by (apply fold_norm_plain; [apply split_char_free|constructor]).
  set (st' := match st with _ :: rest => rest | [] => [] end).
  assert (Hst' : Forall plain st')
    by (unfold st'; destruct st; [constructor|now inversion Hst]).
  assert (Hnorm : Path.normalizeSegments false (split_char SLASH raw)
                  = rev st' ++ [str "workspace"]).
  { unfold raw, Path.sep. rewrite split_char_join by discriminate.
    cbn [map concat]. unfold Path.normalizeSegments.
    rewrite fold_left_app. fold st.
    change (split_char SLASH (str "..") ++ split_char SLASH (str "workspace") ++ [])
      with [str ".."; str "workspace"].
    cbn [fold_left].
    assert (E : Path.norm_step false st (str "..") = st').
    { unfold st'. destruct st as [|top rest]; [reflexivity|].
      inversion Hst as [|? ? (_ & _ & Htop & _) _]; subst.
      apply str_eqb_neq in Htop. unfold Path.norm_step.
      change (str_eqb (str "..") [] || str_eqb (str "..") (str ".")) with false.
      change (str_eqb (str "..") (str "..")) with true. cbv iota.
      now rewrite Htop. }
    rewrite E. reflexivity. }
  assert (Hplain : Forall plain (rev st' ++ [str "workspace"])).
  { apply Forall_app. split; [now apply Forall_rev|].
    constructor; [apply plain_workspace|constructor]. }
  exists (rev st'). split; [assumption|].
  unfold WORKSPACE, Path.join_paths.
  assert (Hfilter : filter (fun a => negb (str_eqb a []))
                      [dirname; str ".."; str "workspace"]
                    = [dirname; str ".."; str "workspace"])
    by (rewrite Hd; reflexivity).
  rewrite Hfilter. fold raw.
  assert (Hne : join Path.sep (rev st' ++ [str "workspace"]) <> []).
  { apply join_plain_nonempty; [|assumption].
    intros E. now apply app_eq_nil in E as [_ E]. }
  rewrite normalize_absolute_nonempty;
    [rewrite Hnorm|assumption|rewrite Hnorm; assumption].
  rewrite resolve_absolute by reflexivity.
  rewrite normalize_rooted; [reflexivity|assumption|].
  destruct (Path.ends_with_sep raw); auto.
Qed.

(** So the workspace root meets what C2 asks of a root. *)
Lemma WORKSPACE_is_root (cwd dirname : jsstring) :
  Path.isAbsolute dirname = true ->
  Path.isAbsolute (WORKSPACE cwd dirname) = true
  /\ Path.segments (Path.resolve cwd (WORKSPACE cwd dirname)) <> [].
Proof.
  intros Habs. destruct (@WORKSPACE_rooted cwd dirname Habs) as (S & Hplain & ->).
  split; [reflexivity|].
  rewrite resolve_absolute by reflexivity.
  pose proof (@normalize_rooted (S ++ [str "workspace"]) [] Hplain
                (or_introl eq_refl)) as Hn.
  rewrite app_nil_r in Hn. rewrite Hn, segments_rooted by assumption.
  intros E. now apply app_eq_nil in E as [_ E].
Qed.

(* ================================================================== *)
(** ** The properties at concrete inputs *)

Lemma ex_workspace : WORKSPACE ex_cwd ex_dirname = str "/app/workspace".
Proof. run. Qed.



(** The iff for a marker between two lines, at scenario 2 of the
    specification: an empty middle. *)
Lemma line_replace_ellipsis_match_witness :
  is_ok (fst (lov_line_replace ex_cwd ex_dirname
                (ex_replace (text_of ["L2"; "..."; "L3"]%string) 2 3) ex_store)).
Proof.
  apply (@line_replace_ellipsis_match ex_cwd ex_dirname ex_store
           (ex_replace (text_of ["L2"; "..."; "L3"]%string) 2 3)
           (str "/app/workspace/a.txt") ex_five 2 3
           ltac:(run) ltac:(run) ltac:(run) ltac:(run) ltac:(run)
           ltac:(range) 2%nat ltac:(run)).
  run.
Defined.

(** C4 fails for a marker that is the first or the last line of the
    template.  Lines 2 to 3 of [a.txt] are [L2] and [L3]: the template of a
    marker line then [L3] has the empty prefix and the suffix [L3], the
    template of [L2] then a marker line has the prefix [L2] and the empty
    suffix, the block starts and ends as both ask, and both are answered
    with the malformed-template error; between two lines the marker is
    accepted. *)
Theorem line_replace_marker_at_template_edge :
  lov_line_replace ex_cwd ex_dirname
    (ex_replace (text_of ["..."; "L3"]%string) 2 3) ex_store
  = (StatusError (str "a.txt") MalformedTemplateError, ex_store)
  /\ lov_line_replace ex_cwd ex_dirname
       (ex_replace (text_of ["L2"; "..."]%string) 2 3) ex_store
     = (StatusError (str "a.txt") MalformedTemplateError, ex_store)
  /\ endsWith (target_block (split_lines ex_five) 2 3) (str "L3") = true
  /\ startsWith (target_block (split_lines ex_five) 2 3) (str "L2") = true
  /\ fst (lov_line_replace ex_cwd ex_dirname
            (ex_replace (text_of ["L2"; "..."; "L3"]%string) 2 3) ex_store)
     = StatusOkRange (str "a.txt") 2 2.
Proof. repeat split; run. Qed.

(** C2 under the workspace root, for a path inside it and for one that
    climbs out of it. *)
Lemma safeJoin_contains_or_blocks_witness :
  (exists abs,
     safeJoin ex_cwd (WORKSPACE ex_cwd ex_dirname) [str "src/a.txt"] = Val abs
     /\ isPathInside ex_cwd abs (WORKSPACE ex_cwd ex_dirname) = true
     /\ is_descendant ex_cwd abs (WORKSPACE ex_cwd ex_dirname))
  /\ safeJoin ex_cwd (WORKSPACE ex_cwd ex_dirname) [str "src/../../etc"]
     = Throw note_traversal.
Proof.
  split.
  - apply (@safeJoin_contains_or_blocks ex_cwd (WORKSPACE ex_cwd ex_dirname)
             (str "src/a.txt") ltac:(run) ltac:(vm_compute; discriminate)).
    vm_compute. repeat constructor.
  - apply (@safeJoin_contains_or_blocks ex_cwd (WORKSPACE ex_cwd ex_dirname)
             (str "src/../../etc") ltac:(run) ltac:(vm_compute; discriminate)).
    apply Exists_cons_tl, Exists_cons_hd. run.
Defined.



(** C5 at scenario 3 of the specification. *)
Lemma line_replace_error_leaves_store_witness :
  snd (lov_line_replace ex_cwd ex_dirname (ex_replace (str "WRONG") 2 3)
         ex_store)
  = ex_store.
Proof.
  apply line_replace_error_leaves_store. vm_compute. exact I.
Defined.

(** C6 refuted: with a last line beyond the end of the file the handler
    replaces lines 2 to 5 of five, leaving two lines where the claim counts
    [5 + 1 - (10 - 2 + 1)]; with a first line of 0 it reports 1 as the new
    end where the claim has [0 - 1 + 1]. *)
Lemma line_replace_count_off_range :
  fst (lov_line_replace ex_cwd ex_dirname
         (ex_replace (text_of ["L2"; "L3"; "L4"; "L5"]%string) 2 10) ex_store)
  = StatusOkRange (str "a.txt") 2 2
  /\ snd (lov_line_replace ex_cwd ex_dirname
            (ex_replace (text_of ["L2"; "L3"; "L4"; "L5"]%string) 2 10) ex_store)
       (str "/app/workspace/a.txt")
     = Some (File (text_of ["L1"; "X"]%string))
  /\ Z.of_nat (length (split_lines (text_of ["L1"; "X"]%string)))
     <> (Z.of_nat (length (split_lines ex_five)) + 1 - (10 - 2 + 1))%Z
  /\ fst (lov_line_replace ex_cwd ex_dirname (ex_replace (str "L1") 0 1)
            ex_store)
     = StatusOkRange (str "a.txt") 1 1
  /\ (1 <> 0 - 1 + 1)%Z.
Proof. repeat split; try run; vm_compute; discriminate. Qed.

(** C6 as amended, at scenario 1 of the specification. *)
Lemma line_replace_line_count_witness :
  exists newContent,
    snd (lov_line_replace ex_cwd ex_dirname
           (ex_replace (text_of ["L2"; "L3"]%string) 2 3) ex_store)
      (str "/app/workspace/a.txt")
    = Some (File newContent)
    /\ Z.of_nat (length (split_lines newContent)) = (5 + 1 - (3 - 2 + 1))%Z.
Proof.
  destruct (@line_replace_line_count ex_cwd ex_dirname ex_store
              (ex_replace (text_of ["L2"; "L3"]%string) 2 3)
              ltac:(vm_compute; exact I))
    as (abs & raw & f & l & newContent & Hp & Hf & H1 & H2 & _ & Hs & _ & Hin).
  vm_compute in Hp. injection Hp as <-.
  vm_compute in Hf. injection Hf as <-.
  injection H1 as <-. injection H2 as <-.
  exists newContent. split; [exact Hs|].
  now destruct (Hin ltac:(range)) as (_ & _ & ->).
Defined.

(** C8 at 204801 bytes, and at 401 changed lines. *)
Lemma write_refuses_over_limits_witness :
  lov_write ex_cwd ex_dirname
    {| write_file_path := str "a.txt"; content := ex_big |} ex_store
  = (StatusError (str "a.txt") note_too_large, ex_store)
  /\ lov_write ex_cwd ex_dirname
       {| write_file_path := str "c.txt"; content := ex_401_b |}
       (one_file "/app/workspace/c.txt" ex_401_a)
     = (StatusError (str "c.txt") note_too_many_changes,
        one_file "/app/workspace/c.txt" ex_401_a).
Proof.
  split.
  - apply (proj1 (@write_refuses_over_limits ex_cwd ex_dirname ex_store
             {| write_file_path := str "a.txt"; content := ex_big |})).
    run.
  - apply (proj2 (@write_refuses_over_limits ex_cwd ex_dirname
             (one_file "/app/workspace/c.txt" ex_401_a)
             {| write_file_path := str "c.txt"; content := ex_401_b |})
             (str "/app/workspace/c.txt") ex_401_a
             ltac:(range) ltac:(run) ltac:(run) ltac:(run)
             ltac:(vm_compute; apply le_n)).
Defined.

(** C9 refuted: on a permitted file that exists, a delete without the
    confirmation flag is answered with [not_enabled], which carries neither
    the size of the file nor a request to confirm. *)
Lemma delete_answers_not_enabled :
  safeJoin ex_cwd (WORKSPACE ex_cwd ex_dirname) [str "a.txt"]
  = Val (str "/app/workspace/a.txt")
  /\ isForbiddenPath ex_cwd ex_dirname (str "/app/workspace/a.txt") = None
  /\ ex_store (str "/app/workspace/a.txt") = Some (File ex_five)
  /\ lov_delete ex_cwd ex_dirname
       {| delete_file_path := str "a.txt"; delete_confirm := false |} ex_store
     = (StatusNotEnabled (str "lov-delete"), ex_store).
Proof. repeat split; run. Qed.


(* ================================================================== *)
(** * Further properties of the engine *)

(** ** The workspace root, at a concrete module directory *)

Lemma WORKSPACE_is_root_witness :
  Path.isAbsolute (WORKSPACE ex_cwd ex_dirname) = true
  /\ Path.segments (Path.resolve ex_cwd (WORKSPACE ex_cwd ex_dirname)) <> [].
Proof. apply (@WORKSPACE_is_root ex_cwd ex_dirname). run. Defined.

(* ================================================================== *)
(** ** Workspace-relative paths *)

Lemma to_slash_no_backslash (l : jsstring) : ~ In BACKSLASH (map to_slash l).
Proof.
  intros H. apply in_map_iff in H as (x & Hx & _). unfold to_slash in Hx.
  destruct (N.eqb_spec x BACKSLASH); [discriminate|congruence].
Qed.

Lemma drop_while_separators (seps p : jsstring) :
  forallb is_separator seps = true ->
  Path.drop_while is_separator (seps ++ p) = Path.drop_while is_separator p.
Proof.
  induction seps as [|c seps IH]; intros H; [reflexivity|].
  simpl in H. apply andb_true_iff in H as [Hc H]. simpl. rewrite Hc. now apply IH.
Qed.

Lemma normalizeWorkspaceRel_unfold (p : jsstring) :
  normalizeWorkspaceRel p =
  let rel := map to_slash (Path.drop_while is_separator p) in
  if startsWith (toLowerCase rel) (str "workspace/") then skipn 10 rel else rel.
Proof.
  unfold normalizeWorkspaceRel. cbv zeta.
  change (fun c : char => N.eqb c BACKSLASH || N.eqb c SLASH) with is_separator.
  change (fun c : char => if N.eqb c BACKSLASH then SLASH else c) with to_slash.
  destruct (startsWith _ _); [|reflexivity].
  now rewrite slice_from_nonneg by (simpl; lia).
Qed.

(** What [normalizeWorkspaceRel] makes of a path: no backslash is left;
    leading separators of either kind do not count; and one leading
    [workspace/], in any letter case and with either separator, is dropped
    with the rest kept as it is, a second one included. *)
Theorem normalizeWorkspaceRel_shape (p : jsstring) :
  ~ In BACKSLASH (normalizeWorkspaceRel p)
  /\ (forall seps, forallb is_separator seps = true ->
        normalizeWorkspaceRel (seps ++ p) = normalizeWorkspaceRel p)
  /\ (forall w, toLowerCase (map to_slash w) = str "workspace/" ->
        normalizeWorkspaceRel (w ++ p) = map to_slash p).
Proof.
  split; [|split].
  - rewrite normalizeWorkspaceRel_unfold. cbv zeta.
    destruct (startsWith _ _).
    + intros H. apply (@to_slash_no_backslash (Path.drop_while is_separator p)).
      rewrite <- (firstn_skipn 10). apply in_or_app. now right.
    + apply to_slash_no_backslash.
  - intros seps Hseps. rewrite !normalizeWorkspaceRel_unfold.
    now rewrite drop_while_separators.
  - intros w Hw. rewrite normalizeWorkspaceRel_unfold. cbv zeta.
    assert (Hlen : length w = 10%nat).
    { apply (f_equal (@length _)) in Hw. unfold toLowerCase in Hw.
      now rewrite !length_map in Hw. }
    assert (Hdrop : Path.drop_while is_separator (w ++ p) = w ++ p).
    { destruct w as [|c w]; [discriminate|]. simpl.
      destruct (is_separator c) eqn:Hc; [|reflexivity]. exfalso.
      unfold toLowerCase in Hw. simpl in Hw. injection Hw as Hc' _.
      unfold is_separator in Hc. apply orb_true_iff in Hc as [Hc|Hc];
        apply N.eqb_eq in Hc; subst c; discriminate. }
    rewrite Hdrop, map_app. unfold toLowerCase at 1. rewrite map_app.
    fold (toLowerCase (map to_slash w)). rewrite Hw, startsWith_app.
    rewrite skipn_app, skipn_all2 by (rewrite length_map; lia).
    rewrite length_map, Hlen. reflexivity.
Qed.

(* ================================================================== *)
(** ** The range parser *)

Lemma map_res_Forall {A B} (f : A -> res B) (P : B -> Prop) (l : list A)
    (ys : list B) :
  (forall x y, f x = Val y -> P y) -> map_res f l = Val ys -> Forall P ys.
Proof.
  intros Hf. revert ys; induction l as [|x l IH]; intros ys H; simpl in H.
  - injection H as <-. constructor.
  - destruct (f x) as [y|] eqn:E; [|discriminate].
    destruct (map_res f l) as [ys'|]; [|discriminate].
    injection H as <-. constructor; eauto.
Qed.

Lemma map_res_throws {A B} (f : A -> res B) (msg : jsstring) (l : list A) :
  (forall x m, f x = Throw m -> m = msg) ->
  Exists (fun x => f x = Throw msg) l -> map_res f l = Throw msg.
Proof.
  intros Hmsg. induction 1 as [x l Hx|x l _ IH]; simpl.
  - now rewrite Hx.
  - destruct (f x) as [y|m] eqn:E; [now rewrite IH|].
    now rewrite (Hmsg _ _ E).
Qed.

Lemma parse_one_range_throw (range m : jsstring) :
  parse_one_range range = Throw m -> m = note_range_format.
Proof.
  unfold parse_one_range.
  destruct (Math_max (Num 1) _) as [|s]; [now intros [= <-]|].
  destruct (Math_max (Num s) _); [now intros [= <-]|discriminate].
Qed.

(** Every range that [parseLineRanges] returns starts at line 1 at least and
    ends at its start at least. *)
Theorem parseLineRanges_ordered (input : jsstring) (ranges : list (Z * Z)) :
  parseLineRanges input = Val ranges ->
  Forall (fun r => (1 <= fst r <= snd r)%Z) ranges.
Proof.
  unfold parseLineRanges. apply map_res_Forall. intros range [s e].
  unfold parse_one_range.
  destruct (parseInt (nth_error _ 0)) as [|x]; [discriminate|].
  destruct (parseInt (nth_error _ 1)) as [|y]; [discriminate|].
  cbn [Math_max]. intros [= <- <-]. simpl. lia.
Qed.

Lemma parseLineRanges_ordered_witness :
  Forall (fun r => (1 <= fst r <= snd r)%Z) [(1, 800); (7, 7)]%Z.
Proof.
  apply (@parseLineRanges_ordered (str "0-800, 7-3")). run.
Defined.

(** A range without a hyphen, a single line number for one, is refused:
    the whole expression is answered with the range-format error.  An
    expression of commas and white space alone gives no range. *)
Theorem parseLineRanges_needs_hyphen (input : jsstring) :
  (Exists (fun tok => tok <> [] /\ ~ In 45%N tok)
     (map trim (split_char 44%N input)) ->
   parseLineRanges input = Throw note_range_format)
  /\ (Forall (fun tok => trim tok = []) (split_char 44%N input) ->
      parseLineRanges input = Val []).
Proof.
  split.
  - intros Hex. unfold parseLineRanges.
    apply map_res_throws; [apply parse_one_range_throw|].
    apply Exists_exists in Hex as (tok & Hin & Hne & Hno).
    apply Exists_exists. exists tok. split.
    + apply filter_In. split; [assumption|].
      apply negb_true_iff. now apply str_eqb_neq.
    + unfold parse_one_range. rewrite split_char_none by assumption.
      change (nth_error (map trim [tok]) 1) with (@None jsstring).
      change (parseInt None) with NaN.
      now destruct (Math_max (Num 1) _).
  - intros Hall. unfold parseLineRanges.
    replace (filter _ _) with (@nil jsstring); [reflexivity|].
    symmetry. induction Hall as [|tok toks Htok _ IH]; [reflexivity|].
    simpl. rewrite Htok. exact IH.
Qed.

Lemma parseLineRanges_needs_hyphen_witness :
  parseLineRanges (str "1-3, 5") = Throw note_range_format
  /\ parseLineRanges (str " , ") = Val [].
Proof.
  split.
  - apply (proj1 (parseLineRanges_needs_hyphen (str "1-3, 5"))).
    apply Exists_cons_tl, Exists_cons_hd. vm_compute.
    split; [discriminate|]. intuition discriminate.
  - apply (proj2 (parseLineRanges_needs_hyphen (str " , "))).
    vm_compute. repeat constructor.
Defined.

(* ================================================================== *)
(** ** View reads and nothing else *)

Lemma cut_length (output : jsstring) :
  (Z.of_nat (length (if (20000 <? Z.of_nat (length output))%Z
                     then slice output 0 20000 else output)) <= 20000)%Z.
Proof.
  destruct (Z.ltb_spec 20000 (Z.of_nat (length output))); [|assumption].
  rewrite slice_nonneg by lia. rewrite length_firstn. lia.
Qed.

(** View never changes the store, whatever it is asked; the text it returns
    is at most 20000 code units long; and a path at which nothing exists is
    answered with the not-found error, which names the normalized path. *)
Theorem view_reads_only (cwd dirname : jsstring) (a : ViewArgs) (fs : FS) :
  snd (lov_view cwd dirname a fs) = fs
  /\ (forall output, fst (lov_view cwd dirname a fs) = Text output ->
        (Z.of_nat (length output) <= 20000)%Z)
  /\ (forall abs,
        safeJoin cwd (WORKSPACE cwd dirname)
          [normalizeWorkspaceRel (view_file_path a)] = Val abs ->
        fs abs = None ->
        fst (lov_view cwd dirname a fs)
        = ErrorReply note_not_found
            (Some (normalizeWorkspaceRel (view_file_path a)))).
Proof.
  unfold lov_view, try_catch, bind, lift, existsSync, readFileSync.
  destruct (safeJoin _ _ _) as [abs|msg]; cbv beta iota;
    [|cbn [fst snd]; split; [reflexivity|split; intros ? ?; discriminate]].
  destruct (fs abs) as [[raw|n]|] eqn:Hfile; cbn [negb]; cbv beta iota;
    rewrite ?Hfile; cbv beta iota.
  - set (cut := fun out0 : jsstring =>
                  if (20000 <? Z.of_nat (length out0))%Z
                  then slice out0 0 20000 else out0).
    assert (Hdefault : forall out0 : jsstring,
      snd (Text (cut out0), fs) = fs
      /\ (forall output, fst (Text (cut out0), fs) = Text output ->
            (Z.of_nat (length output) <= 20000)%Z)
      /\ (forall abs0 : jsstring, Val abs = Val abs0 -> fs abs0 = None ->
            fst (Text (cut out0), fs)
            = ErrorReply note_not_found
                (Some (normalizeWorkspaceRel (view_file_path a))))).
    { intros out0. cbn [fst snd]. split; [reflexivity|]. split.
      - intros output [= <-]. apply cut_length.
      - intros abs0 [= <-] Hnone. congruence. }
    destruct (view_lines a) as [lines|]; [|apply Hdefault].
    destruct (trim lines) as [|t ts]; [apply Hdefault|].
    destruct (parseLineRanges lines) as [ranges|msg]; cbv beta iota;
      [apply Hdefault|].
    cbn [fst snd]. split; [reflexivity|]. split; [intros ? ?; discriminate|].
    intros abs0 [= <-] Hnone. congruence.
  - cbn [fst snd]. split; [reflexivity|]. split; [intros ? ?; discriminate|].
    intros abs0 [= <-] Hnone. congruence.
  - cbn [fst snd]. split; [reflexivity|]. split; [intros ? ?; discriminate|].
    intros abs0 [= <-] _. reflexivity.
Qed.

(* ================================================================== *)
(** ** What a successful line-replace leaves behind *)

Lemma bak_differs' (p : jsstring) : str_eqb (p ++ str ".bak") p = false.
Proof.
  apply str_eqb_neq. intros H. apply (f_equal (@length _)) in H.
  rewrite length_app in H. simpl in H. lia.
Qed.

Section LineReplaceEffects.

Variables cwd dirname : jsstring.
Variable fs : FS.
Variable a : LineReplaceArgs.

Let rel := normalizeWorkspaceRel (file_path a).
Let result := lov_line_replace cwd dirname a fs.

Hypothesis Hok : is_ok (fst result).

(** A successful line-replace writes two paths at most, the file and its
    backup: every other path holds what it held.  The backup holds the file
    as it was before the edit, unless a directory stands at the backup path,
    which then stays. *)
Theorem line_replace_backup_and_frame :
  exists abs raw,
    safeJoin cwd (WORKSPACE cwd dirname) [rel] = Val abs
    /\ fs abs = Some (File raw)
    /\ (forall q, q <> abs -> q <> abs ++ str ".bak" -> snd result q = fs q)
    /\ match fs (abs ++ str ".bak") with
       | Some (Dir n) => snd result (abs ++ str ".bak") = Some (Dir n)
       | _ => snd result (abs ++ str ".bak") = Some (File raw)
       end.
Proof.
  subst result.
  destruct (lov_line_replace_outcome cwd dirname fs a)
    as [(file & note & E)|(abs & raw & f & l & Hp & Hf & Hfile & H1 & H2 & Hs)].
  - rewrite E in Hok. destruct Hok.
  - rewrite (lov_line_replace_run cwd dirname fs a Hp Hf Hfile H1 H2 Hs) in *.
    destruct (check_search _ _); [destruct Hok|].
    exists abs, raw. split; [assumption|]. split; [assumption|].
    cbn [snd]. unfold update. split.
    + intros q Hq Hbak. apply str_eqb_neq in Hq. rewrite Hq.
      now apply after_backup_other.
    + rewrite bak_differs'.
      unfold after_backup, try_ignore, copyFileSync. rewrite Hfile.
      destruct (fs (abs ++ str ".bak")) as [[c|n]|] eqn:Eb; cbn [snd];
        unfold update; rewrite ?str_eqb_refl; try reflexivity. exact Eb.
Qed.

End LineReplaceEffects.

Lemma line_replace_backup_and_frame_witness :
  snd (lov_line_replace ex_cwd ex_dirname
         (ex_replace (text_of ["L2"; "L3"]%string) 2 3) ex_store)
    (str "/app/workspace/a.txt.bak")
  = Some (File ex_five).
Proof.
  destruct (@line_replace_backup_and_frame ex_cwd ex_dirname ex_store
              (ex_replace (text_of ["L2"; "L3"]%string) 2 3)
              ltac:(vm_compute; exact I))
    as (abs & raw & Hp & Hfile & _ & Hbak).
  vm_compute in Hp. injection Hp as <-.
  vm_compute in Hfile. injection Hfile as <-.
  exact Hbak.
Defined.

(* ================================================================== *)
(** ** Reading back what was written *)

Lemma split_lines_plain_line (p t : jsstring) :
  plain_line p -> split_lines (p ++ LF :: t) = p :: split_lines t.
Proof.
  unfold plain_line. induction p as [|x p IH]; intros [Hlf Hcr]; [reflexivity|].
  assert (Hx : x <> LF /\ x <> CR)
    by (split; intros ->; [apply Hlf|apply Hcr]; now left).
  change ((x :: p) ++ LF :: t) with (x :: (p ++ LF :: t)). cbn [split_lines].
  destruct (N.eqb_spec x LF); [tauto|]. destruct (N.eqb_spec x CR); [tauto|].
  rewrite IH; [reflexivity|]. split; intros H; [apply Hlf|apply Hcr]; now right.
Qed.

Lemma split_lines_plain_only (p : jsstring) :
  plain_line p -> split_lines p = [p].
Proof.
  unfold plain_line. induction p as [|x p IH]; intros [Hlf Hcr]; [reflexivity|].
  assert (Hx : x <> LF /\ x <> CR)
    by (split; intros ->; [apply Hlf|apply Hcr]; now left).
  cbn [split_lines].
  destruct (N.eqb_spec x LF); [tauto|]. destruct (N.eqb_spec x CR); [tauto|].
  rewrite IH; [reflexivity|]. split; intros H; [apply Hlf|apply Hcr]; now right.
Qed.

(** Lines without CR, joined with LF and split again, are the same lines. *)
Lemma split_lines_join (ls : list jsstring) :
  ls <> [] -> Forall plain_line ls -> split_lines (join [LF] ls) = ls.
Proof.
  induction ls as [|p ls IH]; intros Hne Hall; [congruence|].
  inversion Hall as [|? ? Hp Hls]; subst. destruct ls as [|q ls].
  - now apply split_lines_plain_only.
  - change (join [LF] (p :: q :: ls)) with (p ++ LF :: join [LF] (q :: ls)).
    rewrite split_lines_plain_line by assumption.
    now rewrite IH by (assumption || discriminate).
Qed.

Lemma split_lines_incl (s : jsstring) :
  Forall (fun l => incl l s) (split_lines s).
Proof.
  enough (H : Forall (fun l => incl l s) (split_lines s)
              /\ forall x, Forall (fun l => incl l (x :: s))
                             (split_lines (x :: s))) by apply H.
  assert (Hpush : forall x (t : jsstring) L,
            Forall (fun l => incl l t) L ->
            Forall (fun l => incl l (x :: t)) (push_char x L)).
  { intros x t [|l ls] HL; simpl.
    - constructor; [|constructor]. intros c [<-|[]]. now left.
    - inversion HL; subst. constructor.
      + intros c [<-|Hc]; [now left|right; auto].
      + eapply Forall_impl; [|eassumption]. intros l' Hl' c Hc. right. auto. }
  assert (Hweak : forall x (t : jsstring) L,
            Forall (fun l => incl l t) L ->
            Forall (fun l => incl l (x :: t)) L).
  { intros x t L HL. eapply Forall_impl; [|eassumption].
    intros l' Hl' c Hc. right. auto. }
  induction s as [|y s [IH1 IH2]].
  - split; [constructor; [intros c []|constructor]|]. intros x.
    rewrite split_lines_last. destruct (N.eqb x LF).
    + constructor; [|constructor; [|constructor]]; intros c [].
    + constructor; [apply incl_refl|constructor].
  - split; [apply IH2|]. intros x. rewrite split_lines_step.
    destruct (N.eqb x LF); [constructor; [intros c []|now apply Hweak]|].
    destruct (N.eqb x CR && N.eqb y LF).
    + constructor; [intros c []|]. now apply Hweak, Hweak.
    + now apply Hpush.
Qed.

Lemma normalize_crlf_without_cr (s : jsstring) :
  ~ In CR s -> normalize_crlf s = s.
Proof.
  induction s as [|x s IH]; intros H; [reflexivity|].
  rewrite normalize_crlf_other by (intros ->; apply H; now left).
  rewrite IH; [reflexivity|]. intros Hin. apply H. now right.
Qed.

Lemma join_split_char (c : char) (s : jsstring) :
  join [c] (split_char c s) = s.
Proof.
  induction s as [|x s IH]; [reflexivity|]. simpl.
  pose proof (split_char_nonempty c s) as Hne.
  destruct (N.eqb_spec x c) as [->|_].
  - rewrite join_cons, IH. now destruct (split_char c s).
  - destruct (split_char c s) as [|l ls]; [congruence|].
    rewrite join_cons. rewrite join_cons in IH. now rewrite <- IH.
Qed.

Lemma lines_of_plain_text (s : jsstring) :
  ~ In CR s -> Forall plain_line (split_lines s).
Proof.
  intros Hcr. pose proof (split_lines_free s) as Hlf.
  pose proof (split_lines_incl s) as Hin.
  rewrite Forall_forall in *. intros l Hl. split; [now apply Hlf|].
  intros Hc. apply Hcr. now apply (Hin l Hl).
Qed.

Lemma pieces_of_plain_text (s : jsstring) :
  ~ In CR s -> Forall plain_line (split_char LF s).
Proof.
  intros Hcr. pose proof (split_char_free LF s) as Hlf.
  rewrite Forall_forall in *. intros l Hl. split; [now apply Hlf|].
  intros Hc. apply Hcr. apply piece_substring in Hl as (u & v & ->).
  apply in_or_app. right. apply in_or_app. now left.
Qed.

(** A well-formed text is stored as it is. *)
Lemma utf8_text_well_formed (paired : bool) (s : jsstring) :
  well_formed_from paired s = true -> utf8_text paired s = s.
Proof.
  revert paired; induction s as [|x s IH]; intros paired H; [reflexivity|].
  cbn [well_formed_from utf8_text] in *. destruct paired.
  - apply andb_true_iff in H as [_ H]. now rewrite IH.
  - destruct (is_high x).
    + destruct s as [|y s]; [discriminate H|].
      assert (Hy : is_low y = true)
        by (cbn [well_formed_from] in H; now apply andb_true_iff in H).
      now rewrite Hy, IH.
    + apply andb_true_iff in H as [Hx H]. apply negb_true_iff in Hx.
      now rewrite Hx, IH.
Qed.

Lemma well_formed_app (paired : bool) (s t : jsstring) :
  well_formed_from paired s = true -> well_formed t ->
  well_formed_from paired (s ++ t) = true.
Proof.
  unfold well_formed. intros Hs Ht. revert paired Hs.
  induction s as [|x s IH]; intros paired Hs.
  - destruct paired; [discriminate Hs|exact Ht].
  - cbn [app well_formed_from] in *. destruct paired.
    + apply andb_true_iff in Hs as [Hx Hs]. now rewrite Hx, IH.
    + destruct (is_high x); [now apply IH|].
      apply andb_true_iff in Hs as [Hx Hs]. now rewrite Hx, IH.
Qed.

Lemma well_formed_lf (s : jsstring) : well_formed s -> well_formed (LF :: s).
Proof. unfold well_formed. intros H. exact H. Qed.

Lemma join_well_formed (ls : list jsstring) :
  Forall well_formed ls -> well_formed (join [LF] ls).
Proof.
  induction 1 as [|p ls Hp Hls IH]; [reflexivity|].
  destruct ls as [|q ls]; [exact Hp|].
  change (join [LF] (p :: q :: ls)) with (p ++ LF :: join [LF] (q :: ls)).
  apply well_formed_app; [exact Hp|]. now apply well_formed_lf.
Qed.

(** The pieces between the LF of a well-formed text are well-formed. *)
Lemma split_char_well_formed (paired : bool) (s : jsstring) :
  well_formed_from paired s = true ->
  exists l ls,
    split_char LF s = l :: ls
    /\ well_formed_from paired l = true /\ Forall well_formed ls.
Proof.
  revert paired; induction s as [|x s IH]; intros paired H.
  - exists [], []. repeat split; [exact H|constructor].
  - cbn [well_formed_from] in H. cbn [split_char]. destruct paired.
    + apply andb_true_iff in H as [Hx H].
      destruct (IH _ H) as (l & ls & -> & Hl & Hls).
      assert (E : N.eqb x LF = false)
        by (apply surrogate_not_lf; rewrite Hx; apply orb_true_r).
      rewrite E. exists (x :: l), ls. repeat split; [|assumption].
      cbn [well_formed_from]. now rewrite Hx.
    + destruct (is_high x) eqn:Eh.
      * destruct (IH _ H) as (l & ls & -> & Hl & Hls).
        assert (E : N.eqb x LF = false)
          by (apply surrogate_not_lf; now rewrite Eh).
        rewrite E. exists (x :: l), ls. repeat split; [|assumption].
        cbn [well_formed_from]. now rewrite Eh.
      * apply andb_true_iff in H as [Hx H].
        destruct (IH _ H) as (l & ls & -> & Hl & Hls).
        destruct (N.eqb x LF).
        -- exists [], (l :: ls). repeat split. now constructor.
        -- exists (x :: l), ls. repeat split; [|assumption].
           cbn [well_formed_from]. now rewrite Eh, Hx.
Qed.

Lemma pieces_well_formed (s : jsstring) :
  well_formed s -> Forall well_formed (split_char LF s).
Proof.
  intros H. destruct (split_char_well_formed _ _ H) as (l & ls & -> & Hl & Hls).
  now constructor.
Qed.

Lemma split_lines_without_cr (s : jsstring) :
  ~ In CR s -> split_lines s = split_char LF s.
Proof.
  induction s as [|x s IH]; intros H; [reflexivity|].
  assert (Hx : N.eqb x CR = false)
    by (apply N.eqb_neq; intros ->; apply H; now left).
  cbn [split_lines split_char]. rewrite Hx, IH by (intros Hin; apply H; now right).
  destruct (N.eqb x LF); [reflexivity|]. unfold push_char.
  pose proof (split_char_nonempty LF s) as Hne.
  now destruct (split_char LF s).
Qed.

Lemma normalize_crlf_well_formed (s : jsstring) :
  well_formed s -> well_formed (normalize_crlf s).
Proof.
  unfold well_formed.
  enough (H : (forall b, well_formed_from b s = true ->
                         well_formed_from b (normalize_crlf s) = true)
              /\ forall x b, well_formed_from b (x :: s) = true ->
                             well_formed_from b (normalize_crlf (x :: s)) = true)
    by apply H.
  assert (Hstep : forall x (t : jsstring),
            x <> CR ->
            (forall b, well_formed_from b t = true ->
                       well_formed_from b (normalize_crlf t) = true) ->
            forall b, well_formed_from b (x :: t) = true ->
                      well_formed_from b (normalize_crlf (x :: t)) = true).
  { intros x t Hx IH b H. rewrite normalize_crlf_other by assumption.
    cbn [well_formed_from] in *. destruct b.
    - apply andb_true_iff in H as [H1 H2]. now rewrite H1, IH.
    - destruct (is_high x); [now apply IH|].
      apply andb_true_iff in H as [H1 H2]. now rewrite H1, IH. }
  induction s as [|y s [IH1 IH2]].
  - split; [trivial|]. intros x b H. destruct (N.eqb_spec x CR) as [->|Hx].
    + exact H.
    + now apply Hstep.
  - split; [apply IH2|]. intros x b H.
    destruct (N.eqb_spec x CR) as [->|Hx]; [|apply Hstep; auto].
    destruct b; [discriminate H|].
    change (well_formed_from false (y :: s) = true) in H.
    destruct (N.eqb_spec y LF) as [->|Hy].
    + rewrite normalize_crlf_pair.
      change (well_formed_from false (normalize_crlf s) = true).
      apply IH1. exact H.
    + rewrite normalize_crlf_lone by assumption.
      change (well_formed_from false (normalize_crlf (y :: s)) = true).
      now apply IH2.
Qed.

Section LineReplaceRereads.

Variables cwd dirname : jsstring.
Variable fs : FS.
Variable a : LineReplaceArgs.
Variables abs raw : jsstring.

Let rel := normalizeWorkspaceRel (file_path a).
Let result := lov_line_replace cwd dirname a fs.
Let lines := split_lines raw.

Hypothesis Hpath : safeJoin cwd (WORKSPACE cwd dirname) [rel] = Val abs.
Hypothesis Hfile : fs abs = Some (File raw).
Hypothesis Hraw : ~ In CR raw.
Hypothesis Hreplace : ~ In CR (replace a).
Hypothesis Hraw_pairs : well_formed raw.
Hypothesis Hreplace_pairs : well_formed (replace a).
Hypothesis Hok : is_ok (fst result).

(** After a successful line-replace of a file without CR by a replacement
    without CR, both well-formed (no surrogate without its partner, which
    would be written as U+FFFD), the file read back line by line is the
    lines before the start line, the lines of the replacement, and the lines
    after the end line; and the lines from the reported start to the
    reported end are the replacement. *)
Theorem line_replace_reads_back :
  exists f l newContent newEnd,
    first_replaced_line a = Num f
    /\ last_replaced_line a = Num l
    /\ fst result = StatusOkRange rel (Z.max 1 f) newEnd
    /\ snd result abs = Some (File newContent)
    /\ split_lines newContent
       = firstn (Z.to_nat (Z.max 1 f - 1)) lines
           ++ split_char LF (replace a)
           ++ skipn (Z.to_nat (Z.max (Z.max 1 f) l)) lines
    /\ slice (split_lines newContent) (Z.max 1 f - 1) newEnd
       = split_char LF (replace a).
Proof.
  subst result.
  destruct (lov_line_replace_outcome cwd dirname fs a)
    as [(file & note & E)|(abs' & raw' & f & l & Hp & Hf & Hfile' & H1 & H2 & Hs)].
  { rewrite E in Hok. destruct Hok. }
  fold rel in Hp. rewrite Hpath in Hp. injection Hp as <-.
  rewrite Hfile in Hfile'. injection Hfile' as <-.
  assert (Hp' : safeJoin cwd (WORKSPACE cwd dirname)
                  [normalizeWorkspaceRel (file_path a)] = Val abs) by exact Hpath.
  rewrite (lov_line_replace_run cwd dirname fs a Hp' Hf Hfile H1 H2 Hs) in *.
  destruct (check_search _ _); [destruct Hok|].
  rewrite (normalize_crlf_without_cr _ Hreplace). fold lines in Hs |- *.
  set (start := Z.max 1 f) in *.
  set (new := firstn (Z.to_nat (start - 1)) lines ++ split_char LF (replace a)
                ++ skipn (Z.to_nat (Z.max start l)) lines).
  assert (Hlines : split_lines (join [LF] new) = new).
  { apply split_lines_join.
    - unfold new. intros E. apply app_eq_nil in E as [_ E].
      apply app_eq_nil in E as [E _]. now apply split_char_nonempty in E.
    - unfold new. rewrite !Forall_app. repeat split.
      + apply Forall_take. now apply lines_of_plain_text.
      + now apply pieces_of_plain_text.
      + apply Forall_drop. now apply lines_of_plain_text. }
  assert (Hsame : utf8_text false (join [LF] new) = join [LF] new).
  { apply utf8_text_well_formed, join_well_formed.
    assert (Hl : Forall well_formed lines).
    { unfold lines. rewrite split_lines_without_cr by assumption.
      now apply pieces_well_formed. }
    unfold new. rewrite !Forall_app. repeat split.
    - now apply Forall_take.
    - now apply pieces_well_formed.
    - now apply Forall_drop. }
  rewrite Hsame.
  exists f, l, (join [LF] new),
    (start - 1 + Z.of_nat (length (split_char LF (replace a))))%Z.
  cbn [fst snd]. repeat (split; [first [assumption|reflexivity]|]).
  split; [unfold update; now rewrite str_eqb_refl|].
  split; [exact Hlines|]. rewrite Hlines.
  assert (Hstart : (1 <= start)%Z) by (unfold start; lia).
  rewrite slice_nonneg by lia. unfold new.
  assert (Hlen : length (firstn (Z.to_nat (start - 1)) lines)
                 = Z.to_nat (start - 1)).
  { rewrite length_firstn. unfold lines, jsstring, char in *. lia. }
  rewrite skipn_app, Hlen, Nat.sub_diag, skipn_all2 by lia.
  cbn [skipn app].
  replace (Z.to_nat _) with (length (split_char LF (replace a)) + 0)%nat by lia.
  now rewrite firstn_app_2, firstn_O, app_nil_r.
Qed.

End LineReplaceRereads.

Lemma line_replace_reads_back_witness :
  exists newContent,
    snd (lov_line_replace ex_cwd ex_dirname
           (ex_replace (text_of ["L2"; "L3"]%string) 2 3) ex_store)
      (str "/app/workspace/a.txt")
    = Some (File newContent)
    /\ split_lines newContent = map str ["L1"; "X"; "L4"; "L5"]%string.
Proof.
  destruct (@line_replace_reads_back ex_cwd ex_dirname ex_store
              (ex_replace (text_of ["L2"; "L3"]%string) 2 3)
              (str "/app/workspace/a.txt") ex_five
              ltac:(run) ltac:(run) ltac:(range) ltac:(range)
              ltac:(run) ltac:(run) ltac:(vm_compute; exact I))
    as (f & l & newContent & newEnd & H1 & H2 & _ & Hs & Hlines & _).
  injection H1 as <-. injection H2 as <-.
  exists newContent. split; [exact Hs|]. rewrite Hlines. run.
Defined.

(* ================================================================== *)
(** ** Whole-file write, when it goes through *)

Section WriteEffects.

Variables cwd dirname : jsstring.
Variable fs : FS.
Variable a : WriteArgs.

Let rel := normalizeWorkspaceRel (write_file_path a).
Let result := lov_write cwd dirname a fs.

Lemma utf8_text_content (c : jsstring) :
  well_formed c -> utf8_text false (normalize_crlf c) = normalize_crlf c.
Proof.
  intros H. now apply utf8_text_well_formed, normalize_crlf_well_formed.
Qed.

(** A whole-file write of a well-formed content (no surrogate without its
    partner, which would be written as U+FFFD) that answers ok has left, at
    the resolved path, the content with its line endings normalized, and a
    view of the same path on the store it leaves returns that content (its
    first 500 lines, cut to 20000 code units). *)
Theorem write_then_view :
  well_formed (content a) ->
  is_ok (fst result) ->
  exists abs,
    safeJoin cwd (WORKSPACE cwd dirname) [rel] = Val abs
    /\ snd result abs = Some (File (normalize_crlf (content a)))
    /\ lov_view cwd dirname
         {| view_file_path := write_file_path a; view_lines := None |}
         (snd result)
       = (Text (default_view (normalize_crlf (content a))), snd result).
Proof.
  intros Hpairs Hok. apply utf8_text_content in Hpairs.
  enough (H : exists abs,
            safeJoin cwd (WORKSPACE cwd dirname) [rel] = Val abs
            /\ snd result abs = Some (File (normalize_crlf (content a)))).
  { destruct H as (abs & Hp & Hfile). exists abs.
    split; [assumption|]. split; [assumption|].
    now apply lov_view_default with (abs := abs). }
  subst result. revert Hok.
  unfold lov_write, try_catch, bind, lift, existsSync, readFileSync.
  fold rel. destruct (_ <? _)%N; [intros []|].
  destruct (safeJoin _ _ _) as [abs|msg]; [|intros []].
  destruct (isForbiddenPath _ _ _); [intros []|]. cbv beta iota.
  destruct (fs abs) as [[prev|n]|] eqn:Hfile; cbv beta iota;
    rewrite ?Hfile; cbv beta iota; [| intros [] |].
  - destruct (_ <? _)%nat; [intros []|].
    rewrite try_ignore_val. fold (after_backup abs fs).
    unfold writeFileSync. rewrite after_backup_same, Hfile.
    cbv beta iota delta [ret]. intros _. exists abs. split; [reflexivity|].
    cbn [snd]. unfold update.
    now rewrite str_eqb_refl, join_split_char, Hpairs.
  - unfold mkdirSync_recursive.
    destruct (existsb _ _); [intros []|]. cbv beta iota.
    unfold writeFileSync. rewrite Hfile.
    destruct (array_includes _ abs); [intros []|].
    destruct (Path.ends_with_sep abs); [intros []|].
    cbv beta iota delta [ret]. intros _. exists abs. split; [reflexivity|].
    cbn [snd]. unfold update. now rewrite str_eqb_refl, Hpairs.
Qed.

(** At most 400 changed line positions, and at most 200 KiB, are accepted:
    a permitted file that exists is overwritten with the normalized content,
    which is well-formed (no surrogate without its partner), after the same
    backup as for line-replace, and every other path is left as it was. *)
Theorem write_overwrites (abs prev : jsstring) :
  well_formed (content a) ->
  (byteLength (content a) <= 200 * 1024)%N ->
  safeJoin cwd (WORKSPACE cwd dirname) [rel] = Val abs ->
  isForbiddenPath cwd dirname abs = None ->
  fs abs = Some (File prev) ->
  (diff_count (split_lines prev)
     (split_char LF (normalize_crlf (content a))) <= 400)%nat ->
  fst result = StatusOk rel (str "Overwritten with small changes")
  /\ snd result abs = Some (File (normalize_crlf (content a)))
  /\ (forall q, q <> abs -> q <> abs ++ str ".bak" -> snd result q = fs q)
  /\ match fs (abs ++ str ".bak") with
     | Some (Dir n) => snd result (abs ++ str ".bak") = Some (Dir n)
     | _ => snd result (abs ++ str ".bak") = Some (File prev)
     end.
Proof.
  intros Hpairs Hsmall Hpath Hallowed Hfile Hdiff.
  apply utf8_text_content in Hpairs.
  apply N.ltb_ge in Hsmall. apply Nat.ltb_ge in Hdiff.
  subst result.
  unfold lov_write, try_catch, bind, lift, existsSync, readFileSync.
  fold rel. rewrite Hsmall, Hpath, Hallowed. cbv beta iota.
  rewrite Hfile. cbv beta iota. rewrite Hfile. cbv beta iota.
  rewrite changed_loop_diff_count, Hdiff.
  rewrite try_ignore_val. fold (after_backup abs fs).
  unfold writeFileSync. rewrite after_backup_same, Hfile.
  cbv beta iota delta [ret]. cbn [fst snd]. unfold update.
  split; [reflexivity|].
  split; [now rewrite str_eqb_refl, join_split_char, Hpairs|].
  split.
  - intros q Hq Hbak. apply str_eqb_neq in Hq. rewrite Hq.
    now apply after_backup_other.
  - rewrite bak_differs'.
    unfold after_backup, try_ignore, copyFileSync. rewrite Hfile.
    destruct (fs (abs ++ str ".bak")) as [[c|n]|] eqn:Eb; cbn [snd];
      unfold update; rewrite ?str_eqb_refl; try reflexivity. exact Eb.
Qed.

End WriteEffects.

Lemma write_then_view_witness :
  lov_view ex_cwd ex_dirname
    {| view_file_path := str "src/new.txt"; view_lines := None |}
    (snd (lov_write ex_cwd ex_dirname
            {| write_file_path := str "src/new.txt"; content := str "hello" |}
            ex_store))
  = (Text (str "hello"),
     snd (lov_write ex_cwd ex_dirname
            {| write_file_path := str "src/new.txt"; content := str "hello" |}
            ex_store)).
Proof.
  destruct (@write_then_view ex_cwd ex_dirname ex_store
              {| write_file_path := str "src/new.txt"; content := str "hello" |}
              ltac:(run) ltac:(vm_compute; exact I))
    as (abs & _ & _ & Hview).
  exact Hview.
Defined.

Lemma write_overwrites_witness :
  fst (lov_write ex_cwd ex_dirname
         {| write_file_path := str "a.txt"; content := str "new" |} ex_store)
  = StatusOk (str "a.txt") (str "Overwritten with small changes")
  /\ snd (lov_write ex_cwd ex_dirname
            {| write_file_path := str "a.txt"; content := str "new" |} ex_store)
       (str "/app/workspace/a.txt.bak")
     = Some (File ex_five).
Proof.
  destruct (@write_overwrites ex_cwd ex_dirname ex_store
              {| write_file_path := str "a.txt"; content := str "new" |}
              (str "/app/workspace/a.txt") ex_five
              ltac:(run) ltac:(range) ltac:(run) ltac:(run) ltac:(run)
              ltac:(vm_compute; repeat constructor))
    as (Hreply & _ & _ & Hbak).
  split; [exact Hreply|exact Hbak].
Defined.

(* ================================================================== *)
(** ** Rename *)

Section Rename.

Variables cwd dirname : jsstring.
Variable fs : FS.
Variable a : RenameArgs.

Let relFrom := normalizeWorkspaceRel (original_file_path a).
Let relTo := normalizeWorkspaceRel (new_file_path a).
Let result := lov_rename cwd dirname a fs.

(** Without the confirmation flag, a rename that answers with an error has
    changed nothing. *)
Theorem rename_unconfirmed_error_leaves_store :
  rename_confirm a = false ->
  is_error (fst result) ->
  snd result = fs.
Proof.
  intros Hconfirm. subst result.
  unfold lov_rename, try_catch, bind, lift, existsSync.
  destruct (safeJoin _ _ [normalizeWorkspaceRel (original_file_path a)])
    as [absFrom|msg]; [|reflexivity]. cbv beta iota.
  destruct (safeJoin _ _ [normalizeWorkspaceRel (new_file_path a)])
    as [absTo|msg]; [|reflexivity]. cbv beta iota.
  destruct (isForbiddenPath _ _ absFrom); [reflexivity|].
  destruct (isForbiddenPath _ _ absTo); [reflexivity|]. cbv beta iota.
  destruct (fs absFrom) as [nodeFrom|] eqn:Hfrom; [|reflexivity].
  cbn [negb]. cbv beta iota.
  destruct (negb (str_eqb _ _)); [reflexivity|]. cbv beta iota.
  rewrite Hconfirm. cbn [negb]. rewrite andb_true_r.
  destruct (fs absTo) as [nodeTo|] eqn:Hto; [reflexivity|].
  cbv beta iota delta [ret]. unfold renameSync, is_file. rewrite Hfrom, Hto.
  destruct nodeFrom; destruct (str_eqb absFrom absTo); cbn [andb];
    try destruct (Path.ends_with_sep absTo); cbn [fst snd];
    first [reflexivity|intros []].
Qed.


(** A file renamed to its own name with the confirmation flag: the handler
    first moves the target, which is the file itself, to the backup path,
    then finds no source to move.  It answers with an error, and the file is
    left under the backup name only. *)
Theorem rename_onto_itself_loses_the_name (abs text : jsstring) :
  original_file_path a = new_file_path a ->
  rename_confirm a = true ->
  safeJoin cwd (WORKSPACE cwd dirname) [relFrom] = Val abs ->
  isForbiddenPath cwd dirname abs = None ->
  fs abs = Some (File text) ->
  (forall n, fs (abs ++ str ".bak") <> Some (Dir n)) ->
  is_error (fst result)
  /\ snd result abs = None
  /\ snd result (abs ++ str ".bak") = Some (File text).
Proof.
  intros Hsame Hconfirm Hp Ha Hfile Hbak. subst result.
  assert (HpTo : safeJoin cwd (WORKSPACE cwd dirname) [relTo] = Val abs)
    by (unfold relTo; rewrite <- Hsame; exact Hp).
  unfold lov_rename, try_catch, bind, lift, existsSync.
  fold relFrom relTo. rewrite Hp, HpTo. cbv beta iota.
  rewrite Ha, Hfile. cbn [negb]. cbv beta iota.
  rewrite str_eqb_refl. cbn [negb]. cbv beta iota.
  rewrite Hfile, Hconfirm. cbn [negb andb]. cbv beta iota.
  assert (Hlonger : startsWith abs ((abs ++ str ".bak") ++ Path.sep) = false).
  { apply not_true_is_false. intros E. apply startsWith_spec in E as [r E].
    apply (f_equal (@length _)) in E. rewrite !length_app in E. simpl in E. lia. }
  assert (Hend : Path.ends_with_sep (abs ++ str ".bak") = false)
    by (unfold Path.ends_with_sep; now rewrite rev_app_distr).
  unfold try_ignore, renameSync, is_file.
  rewrite Hfile, bak_differs, Hend, andb_false_r.
  destruct (fs (abs ++ str ".bak")) as [[c|n]|] eqn:E;
    [|now destruct (Hbak n)|];
    cbv beta iota; rewrite bak_differs, Hlonger, str_eqb_refl;
    cbn [orb fst snd]; rewrite bak_differs, Hlonger, !str_eqb_refl;
    now cbn [orb].
Qed.

End Rename.

Lemma rename_unconfirmed_error_leaves_store_witness :
  snd (lov_rename ex_cwd ex_dirname
         {| original_file_path := str "a.txt"; new_file_path := str "a.txt";
            rename_confirm := false |} ex_store)
  = ex_store.
Proof.
  apply rename_unconfirmed_error_leaves_store; [reflexivity|].
  vm_compute. exact I.
Defined.


Lemma rename_onto_itself_loses_the_name_witness :
  is_error (fst (lov_rename ex_cwd ex_dirname
                   {| original_file_path := str "a.txt";
                      new_file_path := str "a.txt";
                      rename_confirm := true |} ex_store))
  /\ snd (lov_rename ex_cwd ex_dirname
            {| original_file_path := str "a.txt"; new_file_path := str "a.txt";
               rename_confirm := true |} ex_store)
       (str "/app/workspace/a.txt")
     = None
  /\ snd (lov_rename ex_cwd ex_dirname
            {| original_file_path := str "a.txt"; new_file_path := str "a.txt";
               rename_confirm := true |} ex_store)
       (str "/app/workspace/a.txt.bak")
     = Some (File ex_five).
Proof.
  apply (@rename_onto_itself_loses_the_name ex_cwd ex_dirname ex_store
           {| original_file_path := str "a.txt"; new_file_path := str "a.txt";
              rename_confirm := true |}
           (str "/app/workspace/a.txt") ex_five
           ltac:(reflexivity) ltac:(reflexivity) ltac:(run) ltac:(run)
           ltac:(run) ltac:(intros n; vm_compute; discriminate)).
Defined.

(* ================================================================== *)
(** ** Forbidden paths below the workspace root *)

Lemma segments_rooted_tail (S : list jsstring) (tail : jsstring) :
  Forall plain S -> tail = [] \/ tail = Path.sep ->
  Path.segments (Path.sep ++ join Path.sep S ++ tail) = S.
Proof.
  intros HS Htail. unfold Path.segments.
  assert (Hnonempty : filter (fun s => negb (str_eqb s [])) S = S).
  { clear Htail. induction HS as [|x S (Hx & _) _ IH]; [reflexivity|].
    simpl. apply str_eqb_neq in Hx. now rewrite Hx, IH. }
  change (Path.sep ++ join Path.sep S ++ tail)
    with ([] ++ SLASH :: (join Path.sep S ++ tail)).
  rewrite split_char_app. cbn [split_char app filter str_eqb negb].
  destruct S as [|s S'] eqn:ES.
  - destruct Htail as [-> | ->]; reflexivity.
  - rewrite <- ES in *. assert (Hne : S <> []) by (subst; discriminate).
    destruct Htail as [-> | ->].
    + now rewrite app_nil_r, split_plain_join.
    + unfold Path.sep at 2.
      rewrite split_char_app, split_plain_join, filter_app by assumption.
      rewrite Hnonempty. cbn. apply app_nil_r.
Qed.

Lemma strip_common_app (R S : list jsstring) :
  Path.strip_common R (R ++ S) = ([], S).
Proof.
  induction R as [|x R IH]; [now destruct S|]. simpl.
  now rewrite str_eqb_refl.
Qed.

Lemma array_includes_In (parts : list jsstring) (x : jsstring) :
  array_includes parts x = true <-> In x parts.
Proof.
  unfold array_includes. rewrite existsb_exists. split.
  - intros (y & Hy & E). apply str_eqb_eq in E. now subst.
  - intros H. exists x. split; [assumption|apply str_eqb_refl].
Qed.

Lemma array_includes_app_plain (R S : list jsstring) (x : jsstring) :
  array_includes (R ++ S) x = array_includes R x || array_includes S x.
Proof. unfold array_includes. apply existsb_app. Qed.

(** [isForbiddenPath] on a path of plain segments below the workspace root,
    at any depth, with or without a trailing separator: the path is refused
    when its first segment starts with two dots, when one of its segments is
    [node_modules] or [.git], and when its last segment starts with [.env];
    otherwise it is let through. *)
Theorem isForbiddenPath_below_workspace
    (cwd dirname : jsstring) (S : list jsstring) (tail : jsstring) :
  Path.isAbsolute dirname = true ->
  S <> [] -> Forall plain S -> tail = [] \/ tail = Path.sep ->
  isForbiddenPath cwd dirname
    (WORKSPACE cwd dirname ++ Path.sep ++ join Path.sep S ++ tail)
  = if startsWith (join Path.sep S) (str "..") then Some note_escapes
    else if array_includes S (str "node_modules") then Some note_node_modules
    else if array_includes S (str ".git") then Some note_git
    else if startsWith (last S []) (str ".env") then Some note_env
    else None.
Proof.
  intros Habs Hne HS Htail.
  destruct (@WORKSPACE_rooted cwd dirname Habs) as (R0 & HR & Hw).
  set (R := R0 ++ [str "workspace"]) in *.
  assert (HRne : R <> [])
    by (unfold R; intros E; now apply app_eq_nil in E as [_ E]).
  assert (Hall : Forall plain (R ++ S)) by (apply Forall_app; now split).
  assert (Hpath : WORKSPACE cwd dirname ++ Path.sep ++ join Path.sep S ++ tail
                  = Path.sep ++ join Path.sep (R ++ S) ++ tail).
  { rewrite Hw, join_app by assumption. destruct S; [congruence|].
    now rewrite <- !app_assoc. }
  unfold isForbiddenPath, Path.relative, Path.basename.
  rewrite Hpath, Hw.
  rewrite !resolve_absolute by reflexivity.
  rewrite (@normalize_rooted (R ++ S) tail Hall Htail).
  pose proof (@normalize_rooted R [] HR (or_introl eq_refl)) as HnR.
  rewrite app_nil_r in HnR. rewrite HnR.
  rewrite !segments_rooted by assumption.
  rewrite (@segments_rooted_tail (R ++ S) tail Hall Htail).
  rewrite strip_common_app. cbv beta iota. cbn [map app].
  rewrite split_plain_join by assumption.
  assert (Hlast : last (R ++ S) [] = last S []).
  { clear - Hne. induction R as [|x R IH]; [reflexivity|].
    simpl. destruct (R ++ S) eqn:E; [|exact IH].
    apply app_eq_nil in E as [_ E]. congruence. }
  now rewrite Hlast.
Qed.

Lemma isForbiddenPath_below_workspace_witness :
  isForbiddenPath ex_cwd ex_dirname
    (WORKSPACE ex_cwd ex_dirname ++ Path.sep
       ++ join Path.sep (map str ["packages"; "ui"; "node_modules"; "x.js"]%string)
       ++ [])
  = Some note_node_modules.
Proof.
  rewrite (@isForbiddenPath_below_workspace ex_cwd ex_dirname
             (map str ["packages"; "ui"; "node_modules"; "x.js"]%string) []
             ltac:(run) ltac:(discriminate)).
  - run.
  - repeat constructor; try discriminate; vm_compute; intuition discriminate.
  - now left.
Defined.

(* ================================================================== *)
(** ** What a regular expression accepts *)

Import Regex.

Lemma nullable_denotes (r : re) : nullable r = true <-> denotes r [].
Proof.
  split.
  - induction r; simpl; intros H; try discriminate.
    + constructor.
    + apply andb_true_iff in H as [H1 H2].
      change (@nil char) with (@nil char ++ []). constructor; auto.
    + apply orb_true_iff in H as [H|H]; [apply D_alt_l|apply D_alt_r]; auto.
    + constructor.
  - intros H. remember [] as s eqn:Es. induction H; simpl; try reflexivity.
    + discriminate.
    + apply app_eq_nil in Es as [-> ->]. now rewrite IHdenotes1, IHdenotes2.
    + now rewrite IHdenotes.
    + rewrite IHdenotes by assumption. apply orb_true_r.
Qed.

Lemma deriv_sound (c : char) (r : re) (s : jsstring) :
  denotes (deriv c r) s -> denotes r (c :: s).
Proof.
  revert s; induction r; simpl; intros s H.
  - inversion H.
  - inversion H.
  - destruct (cls_matches k c) eqn:E; inversion H; subst. now constructor.
  - destruct (nullable r1) eqn:En.
    + inversion H as [| | | ? ? ? Hl | ? ? ? Hr | |]; subst.
      * inversion Hl; subst.
        change (c :: s0 ++ t) with ((c :: s0) ++ t). constructor; auto.
      * change (c :: s) with ([] ++ c :: s). constructor; auto.
        now apply nullable_denotes.
    + inversion H; subst.
      change (c :: s0 ++ t) with ((c :: s0) ++ t). constructor; auto.
  - inversion H; subst; [apply D_alt_l|apply D_alt_r]; auto.
  - inversion H; subst.
    change (c :: s0 ++ t) with ((c :: s0) ++ t). constructor; auto.
Qed.

Lemma deriv_complete (c : char) (r : re) (s : jsstring) :
  denotes r (c :: s) -> denotes (deriv c r) s.
Proof.
  intros H. remember (c :: s) as cs eqn:E. revert c s E.
  induction H as [|k x Hk|a b s1 t Ha IHa Hb IHb|a b s1 Ha IHa|a b s1 Hb IHb
                  |a|a s1 t Ha IHa Hs IHs]; intros c s E; simpl.
  - discriminate.
  - injection E as -> <-. rewrite Hk. constructor.
  - destruct s1 as [|y s1].
    + simpl in E. subst t.
      apply nullable_denotes in Ha. rewrite Ha. apply D_alt_r. now apply IHb.
    + simpl in E. injection E as -> <-.
      assert (Hcat : denotes (Cat (deriv c a) b) (s1 ++ t))
        by (constructor; auto).
      destruct (nullable a); [now apply D_alt_l|assumption].
  - apply D_alt_l. now apply IHa.
  - apply D_alt_r. now apply IHb.
  - discriminate.
  - destruct s1 as [|y s1].
    + simpl in E. now apply IHs.
    + simpl in E. injection E as -> <-. constructor; auto.
Qed.

(** The matcher decides what the expression stands for. *)
Lemma matches_denotes (r : re) (s : jsstring) :
  matches r s = true <-> denotes r s.
Proof.
  unfold matches. revert r; induction s as [|c s IH]; intros r; simpl.
  - apply nullable_denotes.
  - rewrite IH. split; [apply deriv_sound|apply deriv_complete].
Qed.

Lemma denotes_sym (k : cls) (s : jsstring) :
  denotes (Sym k) s <-> exists c, s = [c] /\ cls_matches k c = true.
Proof.
  split.
  - intros H. inversion H; subst. eauto.
  - intros (c & -> & H). now constructor.
Qed.

Lemma denotes_cat (a b : re) (s : jsstring) :
  denotes (Cat a b) s <-> exists u v, s = u ++ v /\ denotes a u /\ denotes b v.
Proof.
  split.
  - intros H. inversion H; subst. eauto.
  - intros (u & v & -> & Ha & Hb). now constructor.
Qed.

Lemma denotes_eps (s : jsstring) : denotes Eps s <-> s = [].
Proof.
  split; [intros H; now inversion H|intros ->; constructor].
Qed.

Lemma denotes_star_class (k : cls) (s : jsstring) :
  denotes (Star (Sym k)) s <-> Forall (fun c => cls_matches k c = true) s.
Proof.
  split.
  - intros H. remember (Star (Sym k)) as r eqn:Er.
    induction H; try discriminate; [constructor|].
    injection Er as ->. apply Forall_app. split; [|auto].
    inversion H; subst. now repeat constructor.
  - induction 1 as [|c s Hc _ IH]; [constructor|].
    change (c :: s) with ([c] ++ s). constructor; [now constructor|assumption].
Qed.

(* ================================================================== *)
(** ** Globs without a double star *)

Lemma replaceAll_absent (pat rep s : jsstring) :
  indexOf s pat = None -> replaceAll pat rep s = s.
Proof.
  unfold replaceAll. induction s as [|x s IH]; intros H; [reflexivity|].
  cbn [indexOf] in H. cbn [replaceAll_aux].
  destruct (startsWith (x :: s) pat); [discriminate|].
  destruct (indexOf s pat); [discriminate|]. now rewrite IH.
Qed.

Lemma replaceAll_unit (c : char) (rep s : jsstring) :
  replaceAll [c] rep s = flat_map (fun x => if N.eqb x c then rep else [x]) s.
Proof.
  unfold replaceAll. induction s as [|x s IH]; [reflexivity|].
  cbn [replaceAll_aux startsWith flat_map length Nat.sub].
  rewrite andb_true_r, IH. now destruct (N.eqb x c).
Qed.

Lemma flat_map_flat_map {A B C} (f : B -> list C) (g : A -> list B)
    (l : list A) :
  flat_map f (flat_map g l) = flat_map (fun x => flat_map f (g x)) l.
Proof.
  induction l as [|x l IH]; [reflexivity|].
  cbn [flat_map]. now rewrite flat_map_app, IH.
Qed.

Lemma is_escaped_meta_list (c : char) :
  is_escaped_meta c
  = existsb (N.eqb c) [46; 43; 94; 36; 123; 125; 40; 41; 124; 91; 93; 92]%N.
Proof. reflexivity. Qed.

Ltac meta_cases H :=
  rewrite is_escaped_meta_list in H; cbn [existsb] in H;
  repeat (apply orb_false_iff in H as [? H]).

Lemma escaped_meta_not_star (c : char) :
  is_escaped_meta c = true -> N.eqb c STAR = false /\ N.eqb c QUESTION = false.
Proof.
  intros H. split.
  - destruct (N.eqb_spec c STAR) as [->|]; [discriminate H|reflexivity].
  - destruct (N.eqb_spec c QUESTION) as [->|]; [discriminate H|reflexivity].
Qed.

Lemma escaped_meta_syntax (c : char) :
  is_escaped_meta c = true -> is_syntax_char c = true.
Proof.
  rewrite is_escaped_meta_list. cbn [existsb]. intros H.
  repeat (apply orb_true_iff in H as [H|H];
          [apply N.eqb_eq in H; subst c; reflexivity|]).
  discriminate.
Qed.

Lemma startsWith_star_escape (glob : jsstring) :
  startsWith (escape_meta glob) [STAR] = startsWith glob [STAR].
Proof.
  destruct glob as [|c glob]; [reflexivity|].
  unfold escape_meta. cbn [flat_map].
  destruct (is_escaped_meta c) eqn:E.
  - apply escaped_meta_not_star in E as [E _].
    cbn [app startsWith]. now rewrite E.
  - reflexivity.
Qed.

Lemma escape_meta_no_double_star (glob : jsstring) :
  indexOf glob (str "**") = None -> indexOf (escape_meta glob) (str "**") = None.
Proof.
  change (str "**") with [STAR; STAR].
  induction glob as [|c glob IH]; intros H; [reflexivity|].
  cbn [indexOf] in H.
  destruct (startsWith (c :: glob) [STAR; STAR]) eqn:Es; [discriminate|].
  destruct (indexOf glob [STAR; STAR]) eqn:Ei; [discriminate|].
  specialize (IH eq_refl). change (escape_meta (c :: glob))
    with ((if is_escaped_meta c then [BACKSLASH; c] else [c])
          ++ escape_meta glob).
  destruct (is_escaped_meta c) eqn:E.
  - apply escaped_meta_not_star in E as [E _].
    cbn [app indexOf]. cbn [startsWith]. rewrite E. cbn [andb].
    change (N.eqb BACKSLASH STAR) with false. cbn [andb]. now rewrite IH.
  - cbn [app indexOf]. cbn [startsWith] in Es |- *.
    change (match escape_meta glob with
            | [] => false
            | x :: s' => N.eqb x STAR && true
            end) with (startsWith (escape_meta glob) [STAR]).
    rewrite startsWith_star_escape. cbn [startsWith]. rewrite Es.
    now rewrite IH.
Qed.

Lemma indexOf_longer (s t u : jsstring) :
  indexOf s t = None -> indexOf s (t ++ u) = None.
Proof.
  intros H. destruct (indexOf s (t ++ u)) as [i|] eqn:E; [|reflexivity].
  apply indexOf_Some in E. rewrite <- app_assoc in E.
  destruct (occurs_indexOf _ _ _ E) as [j Hj]. congruence.
Qed.

Lemma glob_token_chain (c : char) :
  flat_map (fun x => if N.eqb x QUESTION then str "." else [x])
    (flat_map (fun x => if N.eqb x STAR then str "[^/]*" else [x])
       (if is_escaped_meta c then [BACKSLASH; c] else [c]))
  = glob_token c.
Proof.
  unfold glob_token. destruct (is_escaped_meta c) eqn:E.
  - apply escaped_meta_not_star in E as [Es Eq].
    cbn [flat_map app]. rewrite Es.
    change (N.eqb BACKSLASH STAR) with false. cbn [flat_map app].
    rewrite Eq. reflexivity.
  - cbn [flat_map app]. destruct (N.eqb c STAR) eqn:Es; [reflexivity|].
    cbn [flat_map app]. now destruct (N.eqb c QUESTION).
Qed.

(** The source text of a glob in which no two stars are adjacent. *)
Lemma globToRegExp_source_tokens (glob : jsstring) :
  includes glob (str "**") = false ->
  globToRegExp_source glob = str "^" ++ flat_map glob_token glob ++ str "$".
Proof.
  unfold includes. destruct (indexOf glob (str "**")) eqn:E; [discriminate|].
  intros _. apply escape_meta_no_double_star in E.
  unfold globToRegExp_source.
  rewrite (@replaceAll_absent (str "**/")).
  2: { change (str "**/") with (str "**" ++ str "/"). now apply indexOf_longer. }
  rewrite (@replaceAll_absent (str "**")) by assumption.
  change (str "*") with [STAR]. change (str "?") with [QUESTION].
  rewrite !replaceAll_unit. unfold escape_meta.
  rewrite !flat_map_flat_map. do 2 f_equal.
  apply flat_map_ext. intros c. rewrite <- glob_token_chain.
  now rewrite flat_map_flat_map.
Qed.

Lemma parse_seq_more_fuel (group : jsstring -> option (re * jsstring))
    (n m : nat) (s : jsstring) (x : re * jsstring) :
  parse_seq group n s = Some x -> (n <= m)%nat -> parse_seq group m s = Some x.
Proof.
  revert m s x; induction n as [|n IH]; intros m s x H Hle; [discriminate|].
  destruct m as [|m]; [lia|]. cbn [parse_seq] in H |- *.
  destruct s as [|c s]; [assumption|].
  destruct (N.eqb c 41 || N.eqb c 124); [assumption|].
  destruct (parse_atom group (c :: s)) as [[a s1]|]; [|discriminate].
  destruct (parse_quant a s1) as [q s2].
  destruct (parse_seq group n s2) as [[r s3]|] eqn:E; [|discriminate].
  rewrite (IH m _ _ E) by lia. assumption.
Qed.

Lemma parse_quant_none (a : re) (s : jsstring) :
  no_quantifier s -> parse_quant a s = (a, s).
Proof.
  destruct s as [|x s]; [reflexivity|]. intros (H1 & H2 & H3).
  unfold parse_quant. now rewrite H1, H2, H3.
Qed.

Lemma parse_quant_star (a : re) (s : jsstring) :
  no_quantifier s -> parse_quant a (STAR :: s) = (Star a, s).
Proof.
  destruct s as [|x s]; [reflexivity|]. intros (_ & _ & H).
  unfold parse_quant. change (N.eqb STAR STAR) with true. cbv iota.
  now rewrite H.
Qed.

Lemma glob_token_no_quantifier (glob rest : jsstring) :
  no_quantifier rest -> no_quantifier (flat_map glob_token glob ++ rest).
Proof.
  destruct glob as [|c glob]; [trivial|]. intros _.
  cbn [flat_map]. unfold glob_token.
  destruct (is_escaped_meta c) eqn:E; [now repeat split|].
  destruct (N.eqb c STAR) eqn:Es; [now repeat split|].
  destruct (N.eqb c QUESTION) eqn:Eq; [now repeat split|].
  cbn [app no_quantifier]. meta_cases E. now repeat split.
Qed.

(** One character of a glob is one quantified atom of the source text. *)
Lemma parse_seq_glob_token (group : jsstring -> option (re * jsstring))
    (k : nat) (c : char) (rest : jsstring) :
  no_quantifier rest ->
  parse_seq group (S k) (glob_token c ++ rest)
  = match parse_seq group k rest with
    | Some (r, out) => Some (Cat (glob_atom c) r, out)
    | None => None
    end.
Proof.
  intros Hrest. unfold glob_token, glob_atom.
  destruct (is_escaped_meta c) eqn:E.
  - destruct (escaped_meta_not_star _ E) as [-> ->].
    cbn [app parse_seq]. change (N.eqb BACKSLASH 41 || N.eqb BACKSLASH 124)
      with false. cbv iota.
    assert (Ha : parse_atom group (BACKSLASH :: c :: rest)
                 = Some (Sym (Lit c), rest)).
    { unfold parse_atom. change (N.eqb BACKSLASH 40) with false.
      change (N.eqb BACKSLASH 91) with false.
      change (N.eqb BACKSLASH BACKSLASH) with true. cbv iota.
      now rewrite (escaped_meta_syntax _ E). }
    rewrite Ha. now rewrite parse_quant_none.
  - destruct (N.eqb_spec c STAR) as [->|Hs].
    + change (str "[^/]*" ++ rest) with (91 :: 94 :: 47 :: 93 :: STAR :: rest)%N.
      cbn [parse_seq]. change (N.eqb 91 41 || N.eqb 91 124) with false.
      cbv iota.
      assert (Ha : parse_atom group (91 :: 94 :: 47 :: 93 :: STAR :: rest)%N
                   = Some (Sym (OneOf true [SLASH]), STAR :: rest))
        by reflexivity.
      rewrite Ha. now rewrite parse_quant_star.
    + destruct (N.eqb_spec c QUESTION) as [->|Hq].
      * change (str "." ++ rest) with (DOT :: rest).
        cbn [parse_seq]. change (N.eqb DOT 41 || N.eqb DOT 124) with false.
        cbv iota.
        assert (Ha : parse_atom group (DOT :: rest) = Some (Sym AnyChar, rest))
          by reflexivity.
        rewrite Ha. now rewrite parse_quant_none.
      * apply N.eqb_neq in Hs, Hq. meta_cases E.
        cbn [app parse_seq].
        assert (Hc : N.eqb c 41 || N.eqb c 124 = false)
          by (apply orb_false_iff; now split).
        rewrite Hc.
        assert (Ha : parse_atom group (c :: rest) = Some (Sym (Lit c), rest)).
        { unfold parse_atom.
          change (str "*+?)|^$]{}")
            with [STAR; 43; QUESTION; 41; 124; 94; 36; 93; 123; 125]%N.
          cbn [existsb]. unfold BACKSLASH, DOT, STAR, QUESTION in *.
          repeat match goal with
                 | H : N.eqb c _ = false |- _ => rewrite H; clear H
                 end.
          reflexivity. }
        rewrite Ha. now rewrite parse_quant_none.
Qed.

Lemma parse_seq_glob (group : jsstring -> option (re * jsstring))
    (glob : jsstring) :
  parse_seq group (S (length glob)) (flat_map glob_token glob)
  = Some (glob_seq glob Eps, []).
Proof.
  induction glob as [|c glob IH]; [reflexivity|].
  cbn [flat_map length]. rewrite parse_seq_glob_token.
  - now rewrite IH.
  - rewrite <- (app_nil_r (flat_map glob_token glob)).
    now apply glob_token_no_quantifier.
Qed.

Lemma glob_token_length (glob : jsstring) :
  (length glob <= length (flat_map glob_token glob))%nat.
Proof.
  induction glob as [|c glob IH]; [apply Nat.le_refl|].
  cbn [flat_map]. rewrite length_app. cbn [length].
  assert (1 <= length (glob_token c))%nat; [|lia].
  unfold glob_token.
  destruct (is_escaped_meta c), (N.eqb c STAR), (N.eqb c QUESTION);
    cbn; lia.
Qed.

(** A glob in which no two stars are adjacent compiles, to one atom a
    character. *)
Lemma globToRegExp_tokens (glob : jsstring) :
  includes glob (str "**") = false ->
  globToRegExp glob = Some (glob_seq glob Eps).
Proof.
  intros H. unfold globToRegExp. rewrite (globToRegExp_source_tokens _ H).
  set (body := flat_map glob_token glob).
  change (str "^" ++ body ++ str "$") with (94%N :: body ++ [36%N]).
  unfold RegExp. rewrite rev_app_distr. cbn [rev app].
  change (N.eqb 94 94 && N.eqb 36 36) with true. cbv iota.
  rewrite rev_involutive. cbn [parse_re].
  assert (Hseq : parse_seq (parse_re (length (body ++ [36%N])))
                   (S (length body)) body = Some (glob_seq glob Eps, [])).
  { apply parse_seq_more_fuel with (n := S (length glob)).
    - apply parse_seq_glob.
    - pose proof (glob_token_length glob). fold body in H0. lia. }
  cbn [parse_alts]. now rewrite Hseq.
Qed.

Lemma negated_slash (piece : jsstring) :
  Forall (fun c => cls_matches (OneOf true [SLASH]) c = true) piece
  <-> ~ In SLASH piece.
Proof.
  rewrite Forall_forall. unfold cls_matches. cbn [existsb]. split.
  - intros H Hin. specialize (H _ Hin). now rewrite N.eqb_refl in H.
  - intros H c Hin. destruct (N.eqb_spec c SLASH) as [->|]; [easy|reflexivity].
Qed.

Lemma denotes_glob_atom (c : char) (piece : jsstring) :
  denotes (glob_atom c) piece <-> glob_piece c piece.
Proof.
  unfold glob_atom, glob_piece. destruct (N.eqb c STAR).
  - rewrite denotes_star_class. apply negated_slash.
  - destruct (N.eqb c QUESTION); rewrite denotes_sym.
    + split; intros (x & -> & H); exists x; split; trivial;
        cbn [cls_matches] in *; now destruct (is_line_terminator x).
    + split; intros (x & -> & H); exists x; split; trivial;
        cbn [cls_matches] in *; now apply N.eqb_eq.
Qed.

Lemma denotes_glob_seq (glob path : jsstring) :
  denotes (glob_seq glob Eps) path
  <-> exists pieces, path = concat pieces /\ Forall2 glob_piece glob pieces.
Proof.
  revert path; induction glob as [|c glob IH]; intros path; cbn [glob_seq fold_right].
  - rewrite denotes_eps. split.
    + intros ->. exists []. now split.
    + intros (pieces & -> & H). now inversion H.
  - rewrite denotes_cat. split.
    + intros (u & v & -> & Hu & Hv). apply denotes_glob_atom in Hu.
      apply IH in Hv as (pieces & -> & Hp).
      exists (u :: pieces). split; [reflexivity|now constructor].
    + intros (pieces & -> & H). inversion H as [|? u ? ps Hu Hp]; subst.
      exists u, (concat ps). split; [reflexivity|]. split.
      * now apply denotes_glob_atom.
      * apply IH. now exists ps.
Qed.

(** [globToRegExp] on a glob without [**].  It compiles, and the
    expression accepts a path exactly when the path splits into one piece for
    each character of the glob: for a star any run of code units without a
    slash, the empty run included; for a question mark any one code unit
    that is no line terminator, a slash included; for any other character,
    the characters that regular expressions treat specially among them, that
    character itself. *)
Theorem globToRegExp_without_double_star (glob : jsstring) :
  includes glob (str "**") = false ->
  exists r,
    globToRegExp glob = Some r /\
    forall path,
      Regex.test r path = true
      <-> exists pieces,
            path = concat pieces /\ Forall2 glob_piece glob pieces.
Proof.
  intros H. exists (glob_seq glob Eps). split.
  - now apply globToRegExp_tokens.
  - intros path. unfold Regex.test. rewrite matches_denotes.
    apply denotes_glob_seq.
Qed.

Lemma globToRegExp_without_double_star_witness :
  includes (str "src/*.ts") (str "**") = false /\
  exists r,
    globToRegExp (str "src/*.ts") = Some r /\
    forall path,
      Regex.test r path = true
      <-> exists pieces,
            path = concat pieces
            /\ Forall2 glob_piece (str "src/*.ts") pieces.
Proof.
  split; [reflexivity|].
  apply (@globToRegExp_without_double_star (str "src/*.ts")). reflexivity.
Defined.

(* ================================================================== *)
(** ** From a view to a line-replace *)

Lemma parse_one_range_ordered (range : jsstring) (s e : Z) :
  parse_one_range range = Val (s, e) -> (1 <= s <= e)%Z.
Proof.
  unfold parse_one_range.
  destruct (parseInt (nth_error _ 0)) as [|x]; [discriminate|].
  destruct (parseInt (nth_error _ 1)) as [|y]; [discriminate|].
  cbn [Math_max]. intros [= <- <-]. lia.
Qed.

Section ViewThenReplace.

Variables cwd dirname : jsstring.
Variable fs : FS.
Variables (path abs raw : jsstring).
Variables (range shown replacement : jsstring) (f l : Z).

Let rel := normalizeWorkspaceRel path.

(** What view shows for one range of lines is what line-replace expects as
    the search template for the same lines.  On an existing, permitted file,
    let a view of the range [f-l], which ends within the file, show a text of
    less than 20000 code units, so that nothing was cut, without CR and
    without three dots in a row.  Then a line-replace of lines [f] to [l]
    with that text as its search template is accepted. *)
Theorem view_output_is_accepted_search :
  safeJoin cwd (WORKSPACE cwd dirname) [rel] = Val abs ->
  isForbiddenPath cwd dirname abs = None ->
  fs abs = Some (File raw) ->
  trim range <> [] ->
  parseLineRanges range = Val [(f, l)] ->
  (l <= Z.of_nat (length (split_lines raw)))%Z ->
  fst (lov_view cwd dirname
         {| view_file_path := path; view_lines := Some range |} fs)
  = Text shown ->
  (Z.of_nat (length shown) < 20000)%Z ->
  ~ In CR shown ->
  includes shown (str "...") = false ->
  fst (lov_line_replace cwd dirname
         {| file_path := path; search := shown;
            first_replaced_line := Num f; last_replaced_line := Num l;
            replace := replacement |} fs)
  = StatusOkRange rel f
      (f - 1
       + Z.of_nat (length (split_char LF (normalize_crlf replacement)))).
Proof.
  intros Hpath Hallowed Hfile Htrim Hparse Hend Hview Hlen Hcr Hdots.
  assert (Hord : (1 <= f <= l)%Z).
  { unfold parseLineRanges in Hparse.
    assert (Hall : Forall (fun r => (1 <= fst r <= snd r)%Z) [(f, l)]).
    { revert Hparse. apply map_res_Forall.
      intros x [s e] Hx. now apply parse_one_range_ordered in Hx. }
    now inversion Hall. }
  rewrite (@lov_view_ranges cwd dirname fs path abs raw Hpath Hfile
             range [(f, l)] Htrim Hparse) in Hview.
  cbn [fst map join] in Hview.
  set (block := join [LF] (slice (split_lines raw) (f - 1) l)) in Hview.
  assert (Hshown : shown = block).
  { destruct (Z.ltb_spec 20000 (Z.of_nat (length block))) as [Hcut|_].
    - injection Hview as <-. rewrite slice_nonneg, length_firstn in Hlen by lia.
      cbn [Z.to_nat skipn] in Hlen. lia.
    - now injection Hview as <-. }
  rewrite (@lov_line_replace_valid cwd dirname fs _ abs raw f l);
    try assumption; try reflexivity; [|lia].
  cbn [search replace file_path]. fold rel.
  rewrite normalize_crlf_without_cr by assumption.
  rewrite check_search_plain by assumption.
  assert (Hblock : target_block (split_lines raw) f l = shown).
  { rewrite Hshown. unfold block, target_block.
    rewrite slice_nonneg by lia. do 3 f_equal. lia. }
  rewrite Hblock, str_eqb_refl. reflexivity.
Qed.

End ViewThenReplace.

Lemma view_output_is_accepted_search_witness :
  fst (lov_line_replace ex_cwd ex_dirname
         (ex_replace (text_of ["L2"; "L3"]%string) 2 3) ex_store)
  = StatusOkRange (str "a.txt") 2 2.
Proof.
  exact (@view_output_is_accepted_search ex_cwd ex_dirname ex_store
           (str "a.txt") (str "/app/workspace/a.txt") ex_five
           (str "2-3") (text_of ["L2"; "L3"]%string) (str "X") 2 3
           ltac:(run) ltac:(run) ltac:(run) ltac:(vm_compute; discriminate)
           ltac:(run) ltac:(range) ltac:(run) ltac:(run) ltac:(range)
           ltac:(run)).
Defined.

(* ================================================================== *)
(** ** Whole-file write of a new file *)

Section WriteNew.

Variables cwd dirname : jsstring.
Variable fs : FS.
Variable a : WriteArgs.
Variable abs : jsstring.

Let rel := normalizeWorkspaceRel (write_file_path a).
Let result := lov_write cwd dirname a fs.


End WriteNew.


(* ================================================================== *)
(** ** A single star stays in its directory *)

Lemma glob_pieces_slashes (glob : jsstring) (pieces : list jsstring) :
  ~ In QUESTION glob ->
  Forall2 glob_piece glob pieces ->
  count_occ N.eq_dec (concat pieces) SLASH = count_occ N.eq_dec glob SLASH.
Proof.
  intros Hq H. revert Hq.
  induction H as [|c piece glob pieces Hc _ IH]; intros Hq; [reflexivity|].
  cbn [concat]. unfold jsstring, char in *. rewrite count_occ_app.
  rewrite IH by (intros Hin; apply Hq; now right).
  change (c :: glob) with ([c] ++ glob). rewrite count_occ_app. f_equal.
  unfold glob_piece in Hc. destruct (N.eqb_spec c STAR) as [->|Hs].
  - apply (count_occ_not_In N.eq_dec) in Hc. rewrite Hc. reflexivity.
  - destruct Hc as (x & -> & Hx).
    destruct (N.eqb_spec c QUESTION) as [->|_]; [|now subst x].
    exfalso. apply Hq. now left.
Qed.

(** A glob without [**] and without a question mark accepts only paths
    with as many slashes as it has itself: [*.ts] stays at the top level,
    and [src/*.ts] one level down. *)
Theorem glob_star_stays_in_directory (glob path : jsstring) (r : Regex.re) :
  includes glob (str "**") = false ->
  ~ In QUESTION glob ->
  globToRegExp glob = Some r ->
  Regex.test r path = true ->
  count_occ N.eq_dec path SLASH = count_occ N.eq_dec glob SLASH.
Proof.
  intros Hstars Hq Hr Ht. rewrite globToRegExp_tokens in Hr by assumption.
  injection Hr as <-. unfold Regex.test in Ht.
  apply matches_denotes, denotes_glob_seq in Ht as (pieces & -> & Hp).
  now apply glob_pieces_slashes.
Qed.

Lemma glob_star_stays_in_directory_witness :
  exists r,
    globToRegExp (str "src/*.tsx") = Some r
    /\ Regex.test r (str "src/App.tsx") = true
    /\ count_occ N.eq_dec (str "src/App.tsx") SLASH
       = count_occ N.eq_dec (str "src/*.tsx") SLASH.
Proof.
  destruct (globToRegExp (str "src/*.tsx")) as [r|] eqn:E;
    [|vm_compute in E; discriminate].
  assert (Ht : Regex.test r (str "src/App.tsx") = true)
    by (vm_compute in E; injection E as <-; run).
  exists r. split; [reflexivity|]. split; [exact Ht|].
  apply (@glob_star_stays_in_directory (str "src/*.tsx") (str "src/App.tsx") r);
    [reflexivity|range|exact E|exact Ht].
Defined.

(* ================================================================== *)
(** ** Pinned versions *)

Lemma lastIndexOf_absent (s : jsstring) (c : char) :
  ~ In c s -> lastIndexOf s c = None.
Proof.
  induction s as [|x s IH]; intros H; [reflexivity|]. cbn [lastIndexOf].
  rewrite IH by (intros Hin; apply H; now right).
  destruct (N.eqb_spec x c) as [->|]; [|reflexivity]. exfalso. apply H. now left.
Qed.

Lemma lastIndexOf_last (s t : jsstring) (c : char) :
  ~ In c t -> lastIndexOf (s ++ c :: t) c = Some (length s).
Proof.
  intros H. induction s as [|x s IH]; cbn [app lastIndexOf length].
  - now rewrite lastIndexOf_absent, N.eqb_refl.
  - now rewrite IH.
Qed.

Lemma trimStart_keeps (s : jsstring) (c : char) :
  is_space c = false -> In c s -> In c (trimStart s).
Proof.
  intros Hc. induction s as [|x s IH]; intros Hin; [assumption|].
  cbn [trimStart]. destruct (is_space x) eqn:E; [|assumption].
  destruct Hin as [->|Hin]; [congruence|auto].
Qed.

Lemma trim_keeps (s : jsstring) (c : char) :
  is_space c = false -> In c s -> In c (trim s).
Proof.
  intros Hc Hin. unfold trim. apply in_rev. rewrite rev_involutive.
  apply trimStart_keeps; [assumption|]. apply in_rev. rewrite rev_involutive.
  now apply trimStart_keeps.
Qed.

(** The name and the version that [isPinnedVersionSpec] takes apart. *)
Lemma isPinnedVersionSpec_parts (name version : jsstring) :
  name <> [] -> version <> [] -> ~ In 64%N version ->
  isPinnedVersionSpec (name ++ str "@" ++ version)
  = if existsb (fun c => existsb (N.eqb c) range_chars) version then false
    else Regex.test semver_pin version.
Proof.
  intros Hname Hversion Hat. unfold isPinnedVersionSpec.
  change (str "@" ++ version) with (64%N :: version).
  assert (Htrim : str_eqb (trim (name ++ 64%N :: version)) [] = false).
  { apply str_eqb_neq. intros E.
    assert (Hin : In 64%N (trim (name ++ 64%N :: version))).
    { apply trim_keeps; [reflexivity|]. apply in_elt. }
    rewrite E in Hin. destruct Hin. }
  rewrite Htrim, lastIndexOf_last by assumption.
  assert (Hlen : (0 < length name)%nat /\ (0 < length version)%nat)
    by (destruct name, version; cbn [length]; try congruence; lia).
  destruct (Nat.eqb_spec (length name) 0) as [|_]; [lia|].
  rewrite length_app. cbn [length].
  destruct (Nat.eqb_spec (length name) (length name + S (length version) - 1))
    as [|_]; [lia|].
  cbn [orb]. cbv zeta.
  rewrite slice_nonneg, slice_from_nonneg by lia.
  rewrite Z.sub_0_r, Nat2Z.id. cbn [Z.to_nat skipn].
  replace (Z.to_nat (Z.of_nat (length name) + 1)) with (length name + 1)%nat
    by lia.
  rewrite firstn_app, firstn_all, Nat.sub_diag, firstn_O, app_nil_r.
  rewrite skipn_app, skipn_all2 by lia.
  replace (length name + 1 - length name)%nat with 1%nat by lia.
  cbn [skipn app].
  rewrite (proj2 (str_eqb_neq _ _) Hname), (proj2 (str_eqb_neq _ _) Hversion).
  cbn [orb].
  destruct (existsb (fun c => existsb (N.eqb c) range_chars) version);
    [reflexivity|].
  now destruct (Regex.test semver_pin version).
Qed.

Lemma is_digit_cases (c : char) :
  is_digit c = true ->
  In c [48; 49; 50; 51; 52; 53; 54; 55; 56; 57]%N.
Proof.
  unfold is_digit. intros H. apply andb_true_iff in H as [H1 H2].
  apply N.leb_le in H1, H2. cbn [In]. lia.
Qed.

Lemma digit_class_matches (c : char) :
  is_digit c = true -> cls_matches digit_class c = true.
Proof.
  intros H. apply is_digit_cases in H. cbn [In] in H.
  repeat (destruct H as [<-|H]; [reflexivity|]). destruct H.
Qed.

Lemma digit_not_range (c : char) :
  is_digit c = true -> existsb (N.eqb c) range_chars = false.
Proof.
  intros H. apply is_digit_cases in H. cbn [In] in H.
  repeat (destruct H as [<-|H]; [reflexivity|]). destruct H.
Qed.

Lemma denotes_one_or_more (k : cls) (s : jsstring) :
  s <> [] -> Forall (fun c => cls_matches k c = true) s ->
  denotes (one_or_more (Sym k)) s.
Proof.
  intros Hne H. destruct s as [|c s]; [congruence|]. inversion H; subst.
  change (c :: s) with ([c] ++ s). constructor; [now constructor|].
  now apply denotes_star_class.
Qed.

Lemma denotes_digit_run (s : jsstring) :
  digit_run s -> denotes (one_or_more (Sym digit_class)) s.
Proof.
  intros [Hne H]. apply denotes_one_or_more; [assumption|].
  eapply Forall_impl; [|exact H]. apply digit_class_matches.
Qed.

Lemma digit_run_free (s : jsstring) (c : char) :
  digit_run s -> is_digit c = false -> ~ In c s.
Proof.
  intros [_ H] Hc Hin. rewrite Forall_forall in H. specialize (H _ Hin).
  congruence.
Qed.

(** [isPinnedVersionSpec] accepts every exact version.  Whatever the name
    of the package, scoped or not, as long as it is not empty, a version of
    three decimal numbers separated by dots is accepted. *)
Theorem isPinnedVersionSpec_accepts_exact (name major minor patch : jsstring) :
  name <> [] -> digit_run major -> digit_run minor -> digit_run patch ->
  isPinnedVersionSpec
    (name ++ str "@" ++ major ++ str "." ++ minor ++ str "." ++ patch)
  = true.
Proof.
  intros Hname Hmajor Hminor Hpatch.
  set (version := major ++ str "." ++ minor ++ str "." ++ patch).
  assert (Hchars : Forall (fun c => is_digit c = true \/ c = DOT) version).
  { unfold version. destruct Hmajor as [_ H1], Hminor as [_ H2], Hpatch as [_ H3].
    assert (Hdot : Forall (fun c => is_digit c = true \/ c = DOT) (str "."))
      by (constructor; [now right|constructor]).
    repeat (apply Forall_app; split); try exact Hdot;
      (eapply Forall_impl; [|eassumption]); intros; now left. }
  rewrite isPinnedVersionSpec_parts.
  - assert (Hrange : existsb (fun c => existsb (N.eqb c) range_chars) version
                     = false).
    { apply not_true_is_false. intros E.
      apply existsb_exists in E as (c & Hin & Hc).
      rewrite Forall_forall in Hchars. destruct (Hchars _ Hin) as [Hd| ->].
      - now rewrite digit_not_range in Hc.
      - discriminate Hc. }
    rewrite Hrange. unfold Regex.test. apply matches_denotes.
    unfold version, semver_pin.
    constructor; [now apply denotes_digit_run|].
    change (str "." ++ minor ++ str "." ++ patch)
      with ([DOT] ++ minor ++ [DOT] ++ patch).
    constructor; [now constructor|].
    constructor; [now apply denotes_digit_run|].
    constructor; [now constructor|].
    rewrite <- (app_nil_r patch).
    constructor; [now apply denotes_digit_run|].
    apply D_alt_l. constructor.
  - assumption.
  - unfold version. destruct Hmajor as [Hne _]. now destruct major.
  - rewrite Forall_forall in Hchars. intros Hin.
    destruct (Hchars _ Hin) as [Hd|Hd]; discriminate Hd.
Qed.

Lemma isPinnedVersionSpec_accepts_exact_witness :
  isPinnedVersionSpec (str "@scope/pkg@18.2.0") = true.
Proof.
  apply (@isPinnedVersionSpec_accepts_exact
           (str "@scope/pkg") (str "18") (str "2") (str "0"));
    [discriminate| | |]; (split; [discriminate|repeat constructor]).
Defined.

(** [isPinnedVersionSpec] refuses every version in which one of the
    characters [~ ^ > < = * x X] occurs: the ranges, and with them every
    pre-release tag spelled with an x, [1.0.0-next.1] for one. *)
Theorem isPinnedVersionSpec_refuses_ranges (name version : jsstring)
    (c : char) :
  ~ In 64%N version -> In c version -> In c range_chars ->
  isPinnedVersionSpec (name ++ str "@" ++ version) = false.
Proof.
  intros Hat Hin Hc.
  destruct name as [|n name].
  - unfold isPinnedVersionSpec.
    destruct (str_eqb _ []); [reflexivity|].
    change ([] ++ str "@" ++ version) with (nil ++ 64%N :: version).
    now rewrite lastIndexOf_last.
  - rewrite isPinnedVersionSpec_parts; [|discriminate| |assumption].
    + assert (E : existsb (fun c => existsb (N.eqb c) range_chars) version
                  = true).
      { apply existsb_exists. exists c. split; [assumption|].
        apply existsb_exists. exists c. split; [assumption|apply N.eqb_refl]. }
      now rewrite E.
    + intros ->. destruct Hin.
Qed.

Lemma isPinnedVersionSpec_refuses_ranges_witness :
  isPinnedVersionSpec (str "vite@1.0.0-next.1") = false.
Proof.
  apply (@isPinnedVersionSpec_refuses_ranges
           (str "vite") (str "1.0.0-next.1") 120%N); range || (vm_compute; tauto).
Defined.

(* ================================================================== *)
(** ** The matches of one file in a search *)

Section SearchScan.

Variable query : jsstring -> bool.

(** The matching lines after the first [i], as the search reports them. *)
Let hits (lines : list jsstring) (i : Z) : list (Z * jsstring) :=
  map (fun m => (fst m, slice (snd m) 0 200))
    (filter (fun m => query (snd m)) (numbered lines i)).

Lemma scan_lines_firstn (lines : list jsstring) (i : Z)
    (found : list (Z * jsstring)) :
  (length found <= 3)%nat ->
  scan_lines query lines i found = firstn 3 (found ++ hits lines i).
Proof.
  revert i found; induction lines as [|line rest IH]; intros i found Hlen.
  - cbn [scan_lines]. unfold hits. cbn [numbered filter map].
    now rewrite app_nil_r, firstn_all2.
  - cbn [scan_lines]. destruct (Nat.ltb_spec (length found) 3) as [Hlt|Hge].
    + unfold hits. cbn [numbered filter snd]. destruct (query line).
      * rewrite IH by (rewrite length_app; cbn [length]; lia).
        cbn [map fst snd]. now rewrite <- app_assoc.
      * now rewrite IH.
    + rewrite firstn_app. replace (3 - length found)%nat with 0%nat by lia.
      now rewrite firstn_O, app_nil_r, firstn_all2.
Qed.

(** The scan of one file in [lov-search-files] reports the first three
    matching lines, in the order of the file and under their 1-based line
    numbers, each cut to its first 200 code units; further matches of the
    file are not reported. *)
Theorem search_reports_first_three (lines : list jsstring) :
  scan_lines query lines 0 []
  = firstn 3 (map (fun m => (fst m, slice (snd m) 0 200))
                (filter (fun m => query (snd m)) (numbered lines 0)))
  /\ (length (scan_lines query lines 0 []) <= 3)%nat
  /\ Forall (fun m => (length (snd m) <= 200)%nat)
       (scan_lines query lines 0 []).
Proof.
  rewrite scan_lines_firstn by (cbn; lia). cbn [app]. fold (hits lines 0).
  split; [reflexivity|]. split; [rewrite length_firstn; lia|].
  apply Forall_forall. intros m Hin.
  assert (Hall : In m (hits lines 0)).
  { rewrite <- (firstn_skipn 3 (hits lines 0)). apply in_or_app. now left. }
  clear Hin. rename Hall into Hin. unfold hits in Hin. apply in_map_iff in Hin as (m' & <- & _). cbn [snd].
  rewrite slice_nonneg by lia. rewrite length_firstn. lia.
Qed.

End SearchScan.

(* ================================================================== *)
(** ** Ranges written in decimal *)

Lemma digits_value_run (s : jsstring) (acc : option Z) :
  Forall (fun c => is_digit c = true) s ->
  digits_value s acc
  = match s with
    | [] => acc
    | _ => Some (fold_left (fun v c => (10 * v + Z.of_N (c - 48))%Z) s
                   (match acc with Some v => v | None => 0%Z end))
    end.
Proof.
  intros H. revert acc. induction H as [|c s Hc _ IH]; intros acc; [reflexivity|].
  cbn [digits_value]. rewrite Hc, IH. now destruct s.
Qed.

Lemma is_digit_not_space (c : char) : is_digit c = true -> is_space c = false.
Proof.
  intros H. apply is_digit_cases in H. cbn [In] in H.
  repeat (destruct H as [<-|H]; [reflexivity|]). destruct H.
Qed.

Lemma trimStart_digit_first (c : char) (s : jsstring) :
  is_digit c = true -> trimStart (c :: s) = c :: s.
Proof.
  intros H. cbn [trimStart]. now rewrite is_digit_not_space.
Qed.

Lemma parseInt_digit_run (s : jsstring) :
  digit_run s -> parseInt (Some s) = Num (decimal s).
Proof.
  intros [Hne H]. destruct s as [|c s]; [congruence|].
  assert (Hc : is_digit c = true) by now inversion H.
  unfold parseInt. rewrite trimStart_digit_first by assumption.
  assert (H45 : N.eqb c 45 = false /\ N.eqb c 43 = false).
  { apply is_digit_cases in Hc. cbn [In] in Hc.
    repeat (destruct Hc as [<-|Hc]; [now split|]). destruct Hc. }
  destruct H45 as [-> ->]. now rewrite digits_value_run.
Qed.

Lemma trim_ends (s : jsstring) (c d : char) :
  is_space c = false -> is_space d = false ->
  trim (c :: s ++ [d]) = c :: s ++ [d].
Proof.
  intros Hc Hd. unfold trim. cbn [trimStart]. rewrite Hc.
  assert (E : rev (c :: s ++ [d]) = d :: rev (c :: s)).
  { change (c :: s ++ [d]) with ((c :: s) ++ [d]). now rewrite rev_app_distr. }
  rewrite E. cbn [trimStart]. rewrite Hd, <- E. apply rev_involutive.
Qed.

Lemma trim_digit_run (s : jsstring) : digit_run s -> trim s = s.
Proof.
  intros [Hne H]. destruct s as [|c s]; [congruence|].
  assert (Hc : is_space c = false)
    by (apply is_digit_not_space; now inversion H).
  destruct s as [|x s].
  - unfold trim. cbn [trimStart]. rewrite Hc. cbn [rev app trimStart].
    now rewrite Hc.
  - destruct (@exists_last _ (x :: s)) as (r & d & E); [discriminate|].
    rewrite E in *. apply trim_ends; [assumption|].
    apply is_digit_not_space. rewrite Forall_forall in H. apply H.
    right. apply in_elt.
Qed.

Lemma trim_digits_ends (s t mid : jsstring) :
  digit_run s -> digit_run t -> trim (s ++ mid ++ t) = s ++ mid ++ t.
Proof.
  intros [Hs Hds] [Ht Hdt].
  destruct s as [|c s]; [congruence|].
  destruct (exists_last Ht) as (t' & d & ->).
  replace ((c :: s) ++ mid ++ t' ++ [d]) with (c :: (s ++ mid ++ t') ++ [d])
    by (cbn [app]; now rewrite !app_assoc).
  apply trim_ends; apply is_digit_not_space.
  - now inversion Hds.
  - rewrite Forall_forall in Hdt. apply Hdt, in_elt.
Qed.

(** A range written as two decimal numbers around a hyphen, neither above
    2^53 (up to where the numbers of the code are exact), is read as the
    numbers written, the first raised to 1 and the second to the first:
    [0-5] stands for lines 1 to 5 and [7-3] for line 7 alone. *)
Theorem parseLineRanges_reads_decimal (first last : jsstring) :
  digit_run first -> digit_run last ->
  (decimal first <= 2 ^ 53)%Z -> (decimal last <= 2 ^ 53)%Z ->
  parseLineRanges (first ++ str "-" ++ last)
  = Val [(Z.max 1 (decimal first),
          Z.max (Z.max 1 (decimal first)) (decimal last))].
Proof.
  intros Hfirst Hlast _ _.
  assert (Hfree : forall c, is_digit c = false -> ~ In c first /\ ~ In c last)
    by (intros c Hc; split; eapply digit_run_free; eassumption).
  unfold parseLineRanges.
  rewrite split_char_none.
  2: { intros Hin. apply in_app_or in Hin as [Hin|[Hin|Hin]].
       - now apply (proj1 (Hfree 44%N eq_refl)).
       - discriminate Hin.
       - now apply (proj2 (Hfree 44%N eq_refl)). }
  cbn [map]. rewrite trim_digits_ends by assumption.
  assert (Hne : str_eqb (first ++ str "-" ++ last) [] = false).
  { apply str_eqb_neq. destruct Hfirst as [Hne _]. now destruct first. }
  cbn [filter]. rewrite Hne. cbn [negb map_res].
  unfold parse_one_range. change (str "-" ++ last) with (45%N :: last).
  rewrite split_char_app, !split_char_none
    by (apply (Hfree 45%N); reflexivity).
  cbn [app map nth_error]. rewrite !trim_digit_run by assumption.
  rewrite !parseInt_digit_run by assumption. reflexivity.
Qed.

Lemma parseLineRanges_reads_decimal_witness :
  parseLineRanges (str "7-3") = Val [(7, 7)]%Z.
Proof.
  apply (@parseLineRanges_reads_decimal (str "7") (str "3"));
    first [split; [discriminate|repeat constructor]
          |vm_compute; discriminate].
Defined.
